(** * connection.py: a socket connection with a receive loop and listeners

    A shallow embedding of [Connection] and [MessageListener].

    - bytes objects are lists of [Byte.byte]; a [str] that gets encoded is a
      list of Unicode code points; text that is only printed is a [string].
    - The methods of [Connection] are written in a state-and-exception monad
      [M] over [State]: the object [self], the state of the application the
      listener callbacks belong to, the calls made on listeners so far, and
      what was printed.  An exception keeps the changes of state made before
      it was raised.
    - The listener set holds object references ([ref]); the object behind a
      reference is given by [heap].  Membership is by identity, as for a
      Python object without [__eq__] / [__hash__].  The set is iterated in
      the order of [elements]; no property below depends on which order it is.
    - What the network does (whether [socket.socket], [connect] or
      [Thread.start] raise, what each [recv] returns) is an input.
    - [trace] is not in the program: it records each dispatch and each call
      on a listener, so that "is called" can be stated.
    - The callbacks of a listener act on the state of the application, not on
      the Connection, and a method runs to its end before the next one
      starts: the interleaving of the receive thread with its callers is not
      modelled. *)

From stdpp Require Import gmap list strings.
From Stdlib Require Import Strings.Byte Strings.Ascii ZArith NArith.

Set Default Proof Using "Type".
Local Open Scope Z_scope.

(** ** Bytes and text *)

Abbreviation bytes := (list byte).

Definition CR : byte := x0d.
Definition LF : byte := x0a.
Definition CRLF : bytes := [CR; LF].

#[global] Instance byte_eq_decision : EqDecision byte := Byte.byte_eq_dec.

(** A Python [str]: a sequence of code points. *)
Abbreviation str := (list N).

Definition crlf : str := [13%N; 10%N].

(** ** Exceptions and results *)

Inductive exn_class :=
| OSError             (* socket.error, socket.timeout, socket.gaierror, ... *)
| ValueError
| KeyError
| AttributeError
| UnicodeEncodeError
| RuntimeError
| Exception.

Record exn := mkExn { exn_type : exn_class; exn_str : string }.

(** [except socket.error]: [socket.error] is [OSError]. *)
Definition is_socket_error (e : exn) : bool :=
  match exn_type e with OSError => true | _ => false end.

Inductive outcome (A : Type) :=
| Returned (a : A)
| Raised (e : exn).
Arguments Returned {A} a.
Arguments Raised {A} e.

(** ** The socket *)

Record Socket := mkSocket {
  sock_timeout : option Z;
  sock_peer : option (string * Z);
  sock_closed : bool;
  sock_sent : list bytes           (* the argument of every [send], oldest first *)
}.

Definition new_socket : Socket :=
  {| sock_timeout := None; sock_peer := None; sock_closed := false; sock_sent := [] |}.

(** What the network does to one [connect] call of the program. *)
Record Network := mkNetwork {
  net_socket : option exn;                 (* [socket.socket(...)] raises *)
  net_connect : string -> Z -> option exn; (* [sock.connect((ip, port))] raises *)
  net_thread_start : option exn            (* [Thread.start()] raises *)
}.

Inductive Thread := mkThread (started : bool).

(** ** References to listener objects *)

Definition ref := positive.

(** ** Connection *)

Record Connection := mkConnection {
  __socket : option Socket;
  __is_connection_alive : bool;
  __listen_thread : option Thread;
  __listeners : gset ref
}.

(** [Connection.__init__] *)
Definition __init__ : Connection :=
  {| __socket := None;
     __is_connection_alive := false;
     __listen_thread := None;
     __listeners := ∅ |}.

(** How a run of [__listen] ends: the loop condition became false, or the
    thread waits in [recv] for input that the run does not contain. *)
Inductive loop_end := LoopExit | LoopBlocked.

(** ** bytes.split *)

(** [is_prefix p s]: [s] starts with [p]. *)
Fixpoint is_prefix (p s : bytes) : bool :=
  match p, s with
  | [], _ => true
  | _ :: _, [] => false
  | a :: p', b :: s' => bool_decide (a = b) && is_prefix p' s'
  end.

(** [split_from sep skip s]: the pieces of [s] between the occurrences of
    [sep], found from the left and not overlapping; the first [skip] bytes of
    [s] are the rest of an occurrence already found.  The result is the first
    piece and the list of the others. *)
Fixpoint split_from (sep : bytes) (skip : nat) (s : bytes) : bytes * list bytes :=
  match s with
  | [] => ([], [])
  | b :: s' =>
      match skip with
      | S k => split_from sep k s'
      | O =>
          if is_prefix sep s
          then ([], let '(h, t) := split_from sep (length sep - 1) s' in h :: t)
          else let '(h, t) := split_from sep 0 s' in (b :: h, t)
      end
  end.

(** [data.split(sep)] for a non-empty [sep]. *)
Definition split (data sep : bytes) : list bytes :=
  let '(h, t) := split_from sep 0 data in h :: t.

(** ** str.endswith and the UTF-8 codec *)

Definition endswith (s suffix : str) : bool :=
  bool_decide (suffix `suffix_of` s).

Definition byte_of_N (n : N) : byte := byte_of_ascii (ascii_of_N n).

(** The UTF-8 bytes of one code point; a surrogate has none. *)
Definition utf8_char (c : N) : option bytes :=
  if (c <? 0x80)%N then Some [byte_of_N c]
  else if (c <? 0x800)%N then
    Some [byte_of_N (0xC0 + c / 0x40); byte_of_N (0x80 + c mod 0x40)]
  else if (c <? 0x10000)%N then
    if (0xD800 <=? c)%N && (c <=? 0xDFFF)%N then None
    else Some [byte_of_N (0xE0 + c / 0x1000);
               byte_of_N (0x80 + (c / 0x40) mod 0x40);
               byte_of_N (0x80 + c mod 0x40)]
  else if (c <? 0x110000)%N then
    Some [byte_of_N (0xF0 + c / 0x40000);
          byte_of_N (0x80 + (c / 0x1000) mod 0x40);
          byte_of_N (0x80 + (c / 0x40) mod 0x40);
          byte_of_N (0x80 + c mod 0x40)]
  else None.

Fixpoint utf8 (s : str) : option bytes :=
  match s with
  | [] => Some []
  | c :: s' =>
      match utf8_char c, utf8 s' with
      | Some b, Some bs => Some (b ++ bs)
      | _, _ => None
      end
  end.

(** [bytes(s, "utf-8")] *)
Definition bytes_utf8 (s : str) : outcome bytes :=
  match utf8 s with
  | Some b => Returned b
  | None => Raised (mkExn UnicodeEncodeError "'utf-8' codec can't encode character")
  end.

(** ** Attribute assignment *)

Definition set___socket (v : option Socket) (c : Connection) : Connection :=
  mkConnection v (__is_connection_alive c) (__listen_thread c) (__listeners c).

Definition set___is_connection_alive (v : bool) (c : Connection) : Connection :=
  mkConnection (__socket c) v (__listen_thread c) (__listeners c).

Definition set___listen_thread (v : option Thread) (c : Connection) : Connection :=
  mkConnection (__socket c) (__is_connection_alive c) v (__listeners c).

Definition set___listeners (v : gset ref) (c : Connection) : Connection :=
  mkConnection (__socket c) (__is_connection_alive c) (__listen_thread c) v.

(** ** Methods of the socket object *)

Definition bad_file_descriptor : exn := mkExn OSError "[Errno 9] Bad file descriptor".
Definition not_connected : exn := mkExn OSError "[Errno 107] Transport endpoint is not connected".

(** [sock.settimeout(timeout)], for a timeout that fits the C time types of
    the platform (see [timeout_max]); beyond them it raises [OverflowError],
    which this definition leaves out. *)
Definition settimeout (timeout : Z) (sk : Socket) : outcome unit * Socket :=
  if timeout <? 0 then (Raised (mkExn ValueError "Timeout value out of range"), sk)
  else (Returned tt,
        mkSocket (Some timeout) (sock_peer sk) (sock_closed sk) (sock_sent sk)).

(** [sock.connect((ip_address, port))] *)
Definition sock_connect (net : Network) (ip_address : string) (port : Z) (sk : Socket)
  : outcome unit * Socket :=
  match net_connect net ip_address port with
  | Some e => (Raised e, sk)
  | None => (Returned tt,
             mkSocket (sock_timeout sk) (Some (ip_address, port)) (sock_closed sk) (sock_sent sk))
  end.

(** [sock.close()] *)
Definition close (sk : Socket) : outcome unit * Socket :=
  (Returned tt, mkSocket (sock_timeout sk) (sock_peer sk) true (sock_sent sk)).

(** [sock.send(data)]: the bytes are handed to the socket.  The record keeps
    the argument of the call; how many of the bytes the socket takes (the
    count [send] returns, which the callers here ignore) is not modelled. *)
Definition sock_send (data : bytes) (sk : Socket) : outcome unit * Socket :=
  if sock_closed sk then (Raised bad_file_descriptor, sk)
  else match sock_peer sk with
       | None => (Raised not_connected, sk)
       | Some _ =>
           (Returned tt,
            mkSocket (sock_timeout sk) (sock_peer sk) (sock_closed sk) (sock_sent sk ++ [data]))
       end.

(** [sock.recv(buffer_size)]: [input] is what this call gets from the
    network, at most [buffer_size] bytes or an error. *)
Definition recv (buffer_size : Z) (input : outcome bytes) (sk : Socket)
  : outcome bytes * Socket :=
  if sock_closed sk then (Raised bad_file_descriptor, sk) else (input, sk).

(** ** State, and the monad the methods run in *)

Section Model.

(** The decoded message type, the state of the application behind the
    listener callbacks, and the [_process_data] hook in force (a subclass may
    override it). *)
Context {Msg App : Type}.
Variable process_data : bytes -> Msg.

(** A callback of the application: it runs on the application's state and
    returns or raises.  A callback that calls methods of the Connection is
    not of this type: one that adds or removes a listener during a dispatch
    changes the set under iteration, and the set iterator then raises
    [RuntimeError]. *)
Definition callback (A : Type) : Type := App -> outcome A * App.

(** [MessageListener]: [__init__] stores the two callbacks. *)
Record MessageListener := mkMessageListener {
  __filter : Msg -> callback bool;
  __receive : Msg -> callback unit
}.

(** [MessageListener.accept]: [return self.__filter(message)] *)
Definition accept (self : MessageListener) (message : Msg) : callback bool :=
  __filter self message.

(** [MessageListener.receive]: [self.__receive(message)], nothing returned. *)
Definition receive (self : MessageListener) (message : Msg) : callback unit :=
  fun a =>
    match __receive self message a with
    | (Returned _, a') => (Returned tt, a')
    | (Raised e, a') => (Raised e, a')
    end.

(** The listener object behind each reference. *)
Variable heap : ref -> MessageListener.

(** The calls the receive loop makes, each with how it ended. *)
Inductive event :=
| EvDispatch (obj : Msg)
| EvAccept (listener : ref) (obj : Msg) (r : outcome bool)
| EvReceive (listener : ref) (obj : Msg) (r : outcome unit).

Record State := mkState {
  self : Connection;
  app : App;
  trace : list event;     (* oldest first *)
  stdout : list string    (* printed lines, oldest first *)
}.

Definition M (A : Type) : Type := State -> outcome A * State.

Definition ret {A} (a : A) : M A := fun s => (Returned a, s).

Definition raise {A} (e : exn) : M A := fun s => (Raised e, s).

Definition bind {A B} (m : M A) (k : A -> M B) : M B :=
  fun s =>
    match m s with
    | (Returned a, s') => k a s'
    | (Raised e, s') => (Raised e, s')
    end.

(** [try: body except socket.error as exc: handler] *)
Definition try_except_socket_error {A} (body : M A) (handler : exn -> M A) : M A :=
  fun s =>
    match body s with
    | (Raised e, s') => if is_socket_error e then handler e s' else (Raised e, s')
    | r => r
    end.

Local Notation "x <- m ;; k" := (bind m (fun x => k))
  (at level 100, m at next level, right associativity).
Local Notation "m ;;; k" := (bind m (fun _ => k))
  (at level 100, right associativity).

Definition lift {A} (r : outcome A) : M A := fun s => (r, s).

Definition get_self : M Connection := fun s => (Returned (self s), s).

Definition modify_self (f : Connection -> Connection) : M unit :=
  fun s => (Returned tt, mkState (f (self s)) (app s) (trace s) (stdout s)).

(** [print(line)] *)
Definition print (line : string) : M unit :=
  fun s => (Returned tt, mkState (self s) (app s) (trace s) (stdout s ++ [line])).

Definition record (e : event) : M unit :=
  fun s => (Returned tt, mkState (self s) (app s) (trace s ++ [e]) (stdout s)).

(** Running a callback of the application. *)
Definition run {A} (f : callback A) : M A :=
  fun s => let '(r, a) := f (app s) in (r, mkState (self s) a (trace s) (stdout s)).

(** [self.__socket.method(...)]: on [None] the attribute lookup fails. *)
Definition socket_call {A} (method : string) (f : Socket -> outcome A * Socket) : M A :=
  c <- get_self ;;
  match __socket c with
  | None =>
      raise (mkExn AttributeError
               ("'NoneType' object has no attribute '" +:+ method +:+ "'"))
  | Some sk =>
      let '(r, sk') := f sk in
      modify_self (set___socket (Some sk')) ;;;
      lift r
  end.

(** [socket.socket(socket.AF_INET, socket.SOCK_STREAM)] *)
Definition socket_socket (net : Network) : M Socket :=
  match net_socket net with
  | Some e => raise e
  | None => ret new_socket
  end.

(** [self.__listen_thread.start()]; what the thread runs is [__listen]. *)
Definition thread_start (net : Network) : M unit :=
  match net_thread_start net with
  | Some e => raise e
  | None => modify_self (set___listen_thread (Some (mkThread true)))
  end.

(** [for x in l: body(x)] *)
Fixpoint for_each {A} (l : list A) (body : A -> M unit) : M unit :=
  match l with
  | [] => ret tt
  | x :: l' => body x ;;; for_each l' body
  end.

(** ** The methods of [Connection] *)

Definition connect (net : Network) (ip_address : string) (port : Z) (timeout : Z) : M bool :=
  c <- get_self ;;
  if negb (__is_connection_alive c) then
    try_except_socket_error
      (sk <- socket_socket net ;;
       modify_self (set___socket (Some sk)) ;;;
       socket_call "settimeout" (settimeout timeout) ;;;
       socket_call "connect" (sock_connect net ip_address port) ;;;
       modify_self (set___is_connection_alive true) ;;;
       modify_self (set___listen_thread (Some (mkThread false))) ;;;
       thread_start net)
      (fun exc =>
         print ("Caught exception socket.error : " +:+ exn_str exc) ;;;
         modify_self (set___is_connection_alive false)) ;;;
    c <- get_self ;;
    ret (__is_connection_alive c)
  else
    ret false.

Definition disconnect : M bool :=
  c <- get_self ;;
  if __is_connection_alive c then
    socket_call "close" close ;;;
    modify_self (set___is_connection_alive false) ;;;
    ret true
  else
    ret false.

Definition is_connection_alive : M bool :=
  c <- get_self ;;
  ret (__is_connection_alive c).

Definition send_data (data : bytes) : M unit :=
  socket_call "send" (sock_send data).

Definition send (message : str) (crlf_ending : bool) : M unit :=
  data <- lift (bytes_utf8 (if crlf_ending && negb (endswith message crlf)
                            then message ++ crlf else message)) ;;
  send_data data.

(** [self.__listeners.add(listener)] *)
Definition add_listener (listener : ref) : M unit :=
  modify_self (fun c => set___listeners (__listeners c ∪ {[listener]}) c).

(** [self.__listeners.remove(listener)]: [set.remove] raises [KeyError] on
    an element that is not in the set. *)
Definition remove_listener (listener : ref) : M unit :=
  c <- get_self ;;
  if bool_decide (listener ∈ __listeners c) then
    modify_self (set___listeners (__listeners c ∖ {[listener]}))
  else
    raise (mkExn KeyError "listener").

(** A call on a listener, recorded in the trace with how it ended. *)
Definition called {A} (ev : outcome A -> event) (f : callback A) : M A :=
  fun s => let '(r, s') := run f s in (r, snd (record (ev r) s')).

(** The body of the loop of [__dispatch_listeners]. *)
Definition notify (obj : Msg) (listener : ref) : M unit :=
  accepted <- called (EvAccept listener obj) (accept (heap listener) obj) ;;
  if accepted : bool then
    called (EvReceive listener obj) (receive (heap listener) obj)
  else
    ret tt.

(** [for listener in self.__listeners]: the callbacks leave the set as it is
    (see [callback]), so the iteration is over the listeners at its start. *)
Definition __dispatch_listeners (obj : Msg) : M unit :=
  record (EvDispatch obj) ;;;
  c <- get_self ;;
  for_each (elements (__listeners c)) (notify obj).

Fixpoint __listen (buffer_size : Z) (inputs : list (outcome bytes)) : M loop_end :=
  c <- get_self ;;
  if __is_connection_alive c then
    match inputs with
    | [] => ret LoopBlocked
    | input :: inputs' =>
        data <- socket_call "recv" (recv buffer_size input) ;;
        (match data with
         | _ :: _ =>
             for_each (take 1 (split data CRLF)) (fun msg =>
               __dispatch_listeners (process_data msg))
         | [] =>
             modify_self (set___is_connection_alive false)
         end) ;;;
        __listen buffer_size inputs'
    end
  else
    ret LoopExit.

End Model.

Arguments callback : clear implicits.
Arguments MessageListener : clear implicits.
Arguments event : clear implicits.
Arguments State : clear implicits.
Arguments M : clear implicits.

(** [Connection._process_data] as the class defines it. *)
Definition _process_data (data : bytes) : bytes := data.

(** ** Vocabulary of the properties *)

(** In a Connection that is alive the socket exists and is open: [connect]
    sets the flag only after it has made and connected the socket, and
    [disconnect] clears it when it closes the socket. *)
Definition wf (c : Connection) : Prop :=
  __is_connection_alive c = true ->
  exists sk, __socket c = Some sk /\ sock_closed sk = false /\ is_Some (sock_peer sk).

(** The states a program gets to from a new Connection by calling its
    methods, with the receive loop run on any input. *)
Inductive reachable_state {Msg App} (process_data : bytes -> Msg)
    (heap : ref -> MessageListener Msg App) : State Msg App -> Prop :=
| reach_new a :
    reachable_state process_data heap (mkState __init__ a [] [])
| reach_connect s net ip_address port timeout :
    reachable_state process_data heap s ->
    reachable_state process_data heap (snd (connect net ip_address port timeout s))
| reach_disconnect s :
    reachable_state process_data heap s ->
    reachable_state process_data heap (snd (disconnect s))
| reach_send_data s data :
    reachable_state process_data heap s ->
    reachable_state process_data heap (snd (send_data data s))
| reach_send s message crlf_ending :
    reachable_state process_data heap s ->
    reachable_state process_data heap (snd (send message crlf_ending s))
| reach_add_listener s listener :
    reachable_state process_data heap s ->
    reachable_state process_data heap (snd (add_listener listener s))
| reach_remove_listener s listener :
    reachable_state process_data heap s ->
    reachable_state process_data heap (snd (remove_listener listener s))
| reach_listen s buffer_size inputs :
    reachable_state process_data heap s ->
    reachable_state process_data heap (snd (__listen process_data heap buffer_size inputs s)).

(** The state with another Connection object. *)
Definition with_self {Msg App} (c : Connection) (s : State Msg App) : State Msg App :=
  mkState c (app s) (trace s) (stdout s).


(** The messages handed to [__dispatch_listeners], oldest first. *)
Definition dispatched {Msg} (evs : list (event Msg)) : list Msg :=
  omap (fun ev => match ev with EvDispatch obj => Some obj | _ => None end) evs.

(** The message an event is about. *)
Definition event_obj {Msg} (ev : event Msg) : Msg :=
  match ev with
  | EvDispatch obj | EvAccept _ obj _ | EvReceive _ obj _ => obj
  end.

(** [ev] is a call of [accept] on [l]; one that returned [True]; a call of
    [receive] on [l]. *)
Definition is_accept {Msg} (l : ref) (ev : event Msg) : bool :=
  match ev with EvAccept l' _ _ => bool_decide (l' = l) | _ => false end.

Definition is_accepted {Msg} (l : ref) (ev : event Msg) : bool :=
  match ev with EvAccept l' _ (Returned true) => bool_decide (l' = l) | _ => false end.

Definition is_receive {Msg} (l : ref) (ev : event Msg) : bool :=
  match ev with EvReceive l' _ _ => bool_decide (l' = l) | _ => false end.

Fixpoint count {A} (p : A -> bool) (l : list A) : nat :=
  match l with
  | [] => 0
  | x :: l' => (if p x then 1 else 0) + count p l'
  end.

(** The events of one turn of the loop of [__dispatch_listeners], on
    listener [l], and how the turn ends. *)
Inductive notify_events {Msg} (obj : Msg) (l : ref) : outcome unit -> list (event Msg) -> Prop :=
| ne_rejected :
    notify_events obj l (Returned tt) [EvAccept l obj (Returned false)]
| ne_received :
    notify_events obj l (Returned tt)
      [EvAccept l obj (Returned true); EvReceive l obj (Returned tt)]
| ne_accept_raised e :
    notify_events obj l (Raised e) [EvAccept l obj (Raised e)]
| ne_receive_raised e :
    notify_events obj l (Raised e)
      [EvAccept l obj (Returned true); EvReceive l obj (Raised e)].

(** The events of the loop over the listeners [ls]: a turn that raises is
    the last one. *)
Inductive pass_events {Msg} (obj : Msg) : list ref -> outcome unit -> list (event Msg) -> Prop :=
| pe_done :
    pass_events obj [] (Returned tt) []
| pe_next l ls evs r evs' :
    notify_events obj l (Returned tt) evs ->
    pass_events obj ls r evs' ->
    pass_events obj (l :: ls) r (evs ++ evs')
| pe_raised l ls e evs :
    notify_events obj l (Raised e) evs ->
    pass_events obj (l :: ls) (Raised e) evs.

(** A listener whose callbacks never raise. *)
Definition never_raises {Msg App} (ml : MessageListener Msg App) : Prop :=
  forall obj a,
    (exists b, fst (accept ml obj a) = Returned b) /\
    fst (receive ml obj a) = Returned tt.

(** The bytes of [data] before its first CR-LF; all of [data] when it has
    none. *)
Fixpoint before_crlf (data : bytes) : bytes :=
  match data with
  | [] => []
  | b :: rest => if is_prefix CRLF data then [] else b :: before_crlf rest
  end.

(** [pre] is what precedes the first CR-LF of [data], or is [data] when no
    CR-LF occurs in it. *)
Definition occurs_in (sep data : bytes) : Prop :=
  exists before after, data = before ++ sep ++ after.

Definition first_segment (data pre : bytes) : Prop :=
  (data = pre /\ ~ occurs_in CRLF data) \/
  (exists post, data = pre ++ CRLF ++ post /\ ~ occurs_in CRLF (pre ++ [CR])).

(** The bytes of a peer that sends the segments [segs], each followed by
    CR-LF. *)
Fixpoint frames (segs : list bytes) : bytes :=
  match segs with
  | [] => []
  | seg :: segs' => seg ++ CRLF ++ frames segs'
  end.

(** ** A small application, for the examples *)

(** ASCII text as bytes and as a [str]. *)
Definition b (text : string) : bytes := String.list_byte_of_string text.
Definition u (text : string) : str := N_of_ascii <$> String.list_ascii_of_string text.

(** The application keeps the messages it was given, oldest first. *)
Definition keeper : MessageListener bytes (list bytes) :=
  mkMessageListener (fun _ a => (Returned true, a))
                    (fun message a => (Returned tt, a ++ [message])).

(** A listener that takes no message. *)
Definition deaf : MessageListener bytes (list bytes) :=
  mkMessageListener (fun _ a => (Returned false, a))
                    (fun message a => (Returned tt, a ++ [message])).

Definition boom : exn := mkExn Exception "boom".

(** A listener whose filter raises. *)
Definition faulty : MessageListener bytes (list bytes) :=
  mkMessageListener (fun _ a => (Raised boom, a))
                    (fun _ a => (Returned tt, a)).

(** Listener 2 is faulty, listener 4 is deaf, every other one is a keeper. *)
Definition example_heap (l : ref) : MessageListener bytes (list bytes) :=
  if bool_decide (l = 2%positive) then faulty
  else if bool_decide (l = 4%positive) then deaf
  else keeper.

Definition server_up : Network :=
  mkNetwork None (fun _ _ => None) None.

Definition refused : exn := mkExn OSError "[Errno 111] Connection refused".

Definition server_down : Network :=
  mkNetwork None (fun _ _ => Some refused) None.

(** The socket of a Connection that connected to the example server. *)
Definition example_socket : Socket :=
  mkSocket (Some 10) (Some ("irc.example.org", 6667)) false [].

(** A new Connection, and one that connected and got the listeners [ls]. *)
Definition fresh : State bytes (list bytes) := mkState __init__ [] [] [].

Definition connected (ls : list ref) : State bytes (list bytes) :=
  snd (for_each ls add_listener (snd (connect server_up "irc.example.org" 6667 10 fresh))).

(** Two reads, one message each, on a Connection whose listener 2 raises. *)
Definition faulty_run : outcome loop_end * State bytes (list bytes) :=
  __listen _process_data example_heap 4096
    [Returned (b "A" ++ CRLF); Returned (b "B" ++ CRLF)]
    (connected [1%positive; 2%positive; 3%positive]).

(** ** Vocabulary of the further properties *)

(** [sep.join(pieces)] *)
Fixpoint join (sep : bytes) (pieces : list bytes) : bytes :=
  match pieces with
  | [] => []
  | [piece] => piece
  | piece :: pieces' => piece ++ sep ++ join sep pieces'
  end.

(** The reads the loop gets through: those that hold bytes, up to the first
    read that is empty or raises. *)
Fixpoint live_reads (inputs : list (outcome bytes)) : list bytes :=
  match inputs with
  | Returned (x :: data) :: inputs' => (x :: data) :: live_reads inputs'
  | _ => []
  end.

(** How the loop ends on [inputs] when no listener raises. *)
Fixpoint loop_outcome (inputs : list (outcome bytes)) : outcome loop_end :=
  match inputs with
  | [] => Returned LoopBlocked
  | Returned [] :: _ => Returned LoopExit
  | Returned (_ :: _) :: inputs' => loop_outcome inputs'
  | Raised e :: _ => Raised e
  end.

(** A network on which everything works. *)
Definition network_ok (net : Network) (ip_address : string) (port : Z) : Prop :=
  net_socket net = None /\
  net_connect net ip_address port = None /\
  net_thread_start net = None.

(** The calls on listener [l] among [evs]. *)
Definition calls_on {Msg} (l : ref) (evs : list (event Msg)) : nat :=
  count (is_accept l) evs + count (is_receive l) evs.

(** A lone surrogate, which UTF-8 does not encode. *)
Definition is_surrogate (c : N) : Prop := (0xD800 <= c <= 0xDFFF)%N.

Definition timed_out : exn := mkExn OSError "timed out".

Definition cannot_start : exn := mkExn RuntimeError "can't start new thread".

(** A network on which the thread cannot be started. *)
Definition server_up_no_thread : Network :=
  mkNetwork None (fun _ _ => None) (Some cannot_start).

(** The messages given to [receive] of listener [l], oldest first. *)
Definition received_by {Msg} (l : ref) (evs : list (event Msg)) : list Msg :=
  omap (fun ev =>
          match ev with
          | EvReceive l' obj _ => if bool_decide (l' = l) then Some obj else None
          | _ => None
          end) evs.

(** A listener whose filter answers [answer] to every message. *)
Definition always_answers {Msg App} (ml : MessageListener Msg App) (answer : bool) : Prop :=
  forall obj a, fst (accept ml obj a) = Returned answer.

(** The state with a Connection as [__init__] makes it. *)
Definition new_state {Msg App} (a : App) : State Msg App := mkState __init__ a [] [].

(** The dispatch contract in the words of the specification: the listeners
    are taken in turn; [accept] is called with the message, and [receive]
    only if that call returned [True]; as the code has no handler, a call
    that raises ends the dispatch.  The result is how the dispatch ends, the
    state of the application after it, and the calls made, each with the
    result the listener gave. *)
Fixpoint contract_run {Msg App} (heap : ref -> MessageListener Msg App) (obj : Msg)
    (ls : list ref) (a : App) : outcome unit * App * list (event Msg) :=
  match ls with
  | [] => (Returned tt, a, [])
  | l :: ls' =>
      match accept (heap l) obj a with
      | (Returned true, a1) =>
          match receive (heap l) obj a1 with
          | (Returned _, a2) =>
              let '(r, a3, evs) := contract_run heap obj ls' a2 in
              (r, a3,
               EvAccept l obj (Returned true) :: EvReceive l obj (Returned tt) :: evs)
          | (Raised e, a2) =>
              (Raised e, a2,
               [EvAccept l obj (Returned true); EvReceive l obj (Raised e)])
          end
      | (Returned false, a1) =>
          let '(r, a3, evs) := contract_run heap obj ls' a1 in
          (r, a3, EvAccept l obj (Returned false) :: evs)
      | (Raised e, a1) => (Raised e, a1, [EvAccept l obj (Raised e)])
      end
  end.

(** A call on the listener [ml] for [obj] raises [e] when the application is
    in state [a]: its [accept] raises, or its [accept] returns [True] and its
    [receive] raises. *)
Definition raises_at {Msg App} (ml : MessageListener Msg App) (obj : Msg) (a : App)
    (e : exn) : Prop :=
  fst (accept ml obj a) = Raised e \/
  exists a1, accept ml obj a = (Returned true, a1) /\ fst (receive ml obj a1) = Raised e.

(** The calls of a listener call that raises [e] on listener [l]. *)
Definition raising_calls {Msg} (l : ref) (obj : Msg) (e : exn) (calls : list (event Msg))
    : Prop :=
  calls = [EvAccept l obj (Raised e)] \/
  calls = [EvAccept l obj (Returned true); EvReceive l obj (Raised e)].

(** A timeout, in seconds, that fits the C types [settimeout] converts it to
    on every platform: [INT_MAX] milliseconds.  Above the range of the
    platform [settimeout] raises [OverflowError]. *)
Definition timeout_max : Z := 2147483.

(** ** Properties *)

(** *** Framing: the first piece of [data.split(CRLF)] *)

Lemma is_prefix_CRLF (data : bytes) :
  is_prefix CRLF data = true <-> exists rest, data = CRLF ++ rest.
Proof.
  split.
  - destruct data as [|a [|b rest]]; simpl; try done.
    + by rewrite andb_false_r.
    + intros H. apply andb_prop in H as [Ha H]. apply andb_prop in H as [Hb _].
      apply bool_decide_eq_true in Ha, Hb. subst. by exists rest.
  - intros [rest ->]. reflexivity.
Qed.

Lemma split_from_before_crlf (data : bytes) :
  fst (split_from CRLF 0 data) = before_crlf data.
Proof.
  induction data as [|b rest IH]; [done|].
  cbn [split_from before_crlf].
  destruct (is_prefix CRLF (b :: rest)); [done|].
  destruct (split_from CRLF 0 rest) as [h t]. simpl in *. by rewrite IH.
Qed.

(** [data.split(b"\r\n")[:1]] holds one piece: what precedes the first CR-LF. *)
Lemma take_1_split (data : bytes) :
  take 1 (split data CRLF) = [before_crlf data].
Proof.
  unfold split. rewrite <- split_from_before_crlf.
  by destruct (split_from CRLF 0 data).
Qed.

Lemma not_occurs_in_short (data : bytes) :
  (length data < 2)%nat -> ~ occurs_in CRLF data.
Proof.
  intros Hlen (before & after & ->). rewrite !length_app in Hlen. simpl in Hlen. lia.
Qed.

Lemma occurs_in_cons (b : byte) (data : bytes) :
  occurs_in CRLF (b :: data) ->
  is_prefix CRLF (b :: data) = true \/ occurs_in CRLF data.
Proof.
  intros ([|b' before] & after & Heq); simpl in Heq.
  - left. apply is_prefix_CRLF. by exists after.
  - right. injection Heq as _ ->. by exists before, after.
Qed.

Lemma before_crlf_first_segment (data : bytes) :
  first_segment data (before_crlf data).
Proof.
  induction data as [|b rest IH].
  { left. split; [done|]. apply not_occurs_in_short. simpl. lia. }
  cbn [before_crlf].
  destruct (is_prefix CRLF (b :: rest)) eqn:Hpre.
  - apply is_prefix_CRLF in Hpre as [post Hpost].
    right. exists post. split; [done|]. apply not_occurs_in_short. simpl. lia.
  - destruct IH as [[Heq Hno] | (post & Heq & Hno)].
    + left. split; [by rewrite <- Heq|].
      intros [Hp | Hocc]%occurs_in_cons; [congruence|done].
    + right. exists post. split; [by rewrite Heq at 1|].
      change ((b :: before_crlf rest) ++ [CR]) with (b :: (before_crlf rest ++ [CR])).
      intros [Hp | Hocc]%occurs_in_cons; [|done].
      apply is_prefix_CRLF in Hp as [r Hr]. simpl in Hr.
      injection Hr as -> Hr.
      assert (is_prefix CRLF (CR :: rest) = true) as Hyes; [|congruence].
      apply is_prefix_CRLF. rewrite Heq.
      destruct (before_crlf rest) as [|x pre]; simpl in *.
      * done.
      * injection Hr as -> _. by eexists.
Qed.

Lemma crlf_at_front (k post post' : bytes) :
  CRLF ++ post = k ++ CRLF ++ post' -> k = [] \/ exists k', k = CRLF ++ k'.
Proof.
  destruct k as [|x [|y k']]; simpl; intros Heq.
  - by left.
  - by injection Heq as _ ? _.
  - injection Heq as <- <- _. right. by exists k'.
Qed.

Lemma first_crlf_unique (p1 p2 post1 post2 : bytes) :
  p1 ++ CRLF ++ post1 = p2 ++ CRLF ++ post2 ->
  ~ occurs_in CRLF (p1 ++ [CR]) ->
  ~ occurs_in CRLF (p2 ++ [CR]) ->
  p1 = p2.
Proof.
  intros Heq Hno1 Hno2.
  apply app_eq_inv in Heq as [(k & -> & Hk) | (k & -> & Hk)].
  - apply crlf_at_front in Hk as [-> | [k' ->]]; [by rewrite app_nil_r|].
    destruct Hno1. exists p2, (k' ++ [CR]). by rewrite <- !app_assoc.
  - apply crlf_at_front in Hk as [-> | [k' ->]]; [by rewrite app_nil_r|].
    destruct Hno2. exists p1, (k' ++ [CR]). by rewrite <- !app_assoc.
Qed.

(** [first_segment] determines the piece: [before_crlf] is the only one. *)
Lemma first_segment_unique (data p1 p2 : bytes) :
  first_segment data p1 -> first_segment data p2 -> p1 = p2.
Proof.
  intros [[Heq1 Hno1] | (post1 & Heq1 & Hno1)] [[Heq2 Hno2] | (post2 & Heq2 & Hno2)].
  - congruence.
  - destruct Hno1. by exists p2, post2.
  - destruct Hno2. by exists p1, post1.
  - eapply first_crlf_unique; [|done|done]. by rewrite <- Heq1, <- Heq2.
Qed.

(** A segment without CR-LF inside, followed by CR-LF: it is the first piece. *)
Lemma before_crlf_segment (segment rest : bytes) :
  ~ occurs_in CRLF segment ->
  before_crlf (segment ++ CRLF ++ rest) = segment.
Proof.
  intros Hno. eapply first_segment_unique; [apply before_crlf_first_segment|].
  right. exists rest. split; [done|].
  intros (before & after & Heq). apply Hno.
  destruct (decide (after = [])) as [-> | Hafter].
  - rewrite app_nil_r in Heq. change CRLF with ([CR] ++ [LF]) in Heq.
    rewrite app_assoc in Heq. by apply app_inj_tail in Heq as [_ ?].
  - apply exists_last in Hafter as (after' & x & ->).
    rewrite !app_assoc in Heq. apply app_inj_tail in Heq as [Heq _].
    exists before, after'. by rewrite Heq, <- app_assoc.
Qed.

(** [split] on complete segments: the segments, and an empty last piece. *)
Lemma split_segment (segment rest : bytes) :
  ~ occurs_in CRLF segment ->
  split (segment ++ CRLF ++ rest) CRLF = segment :: split rest CRLF.
Proof.
  unfold split. induction segment as [|x segment IH]; intros Hno.
  - simpl. by destruct (split_from CRLF 0 rest).
  - change ((x :: segment) ++ CRLF ++ rest) with (x :: (segment ++ CRLF ++ rest)).
    cbn [split_from].
    destruct (is_prefix CRLF (x :: segment ++ CRLF ++ rest)) eqn:Hpre.
    + apply is_prefix_CRLF in Hpre as [r Hr]. destruct Hno.
      destruct segment as [|y segment]; simpl in Hr.
      * by injection Hr as _ ? _.
      * injection Hr as -> -> _. by exists [], segment.
    + assert (~ occurs_in CRLF segment) as Hno'.
      { intros (before & after & ->). apply Hno. by exists (x :: before), after. }
      specialize (IH Hno').
      destruct (split_from CRLF 0 (segment ++ CRLF ++ rest)) as [h t].
      destruct (split_from CRLF 0 rest) as [h' t'].
      by injection IH as -> ->.
Qed.

Lemma split_frames (segs : list bytes) :
  Forall (fun seg => ~ occurs_in CRLF seg) segs ->
  split (frames segs) CRLF = segs ++ [[]].
Proof.
  induction 1 as [|seg segs Hseg _ IH]; [done|].
  cbn [frames]. by rewrite split_segment, IH.
Qed.

(** *** The events of a pass over the listeners *)

Section Events.

Context {Msg : Type}.

Lemma count_app {A} (p : A -> bool) (l1 l2 : list A) :
  count p (l1 ++ l2) = (count p l1 + count p l2)%nat.
Proof. induction l1 as [|x l1 IH]; simpl; [done|]. rewrite IH. lia. Qed.

Lemma dispatched_app (evs1 evs2 : list (event Msg)) :
  dispatched (evs1 ++ evs2) = dispatched evs1 ++ dispatched evs2.
Proof. apply omap_app. Qed.


Lemma notify_events_obj obj l r (evs : list (event Msg)) :
  notify_events obj l r evs -> Forall (fun ev => event_obj ev = obj) evs.
Proof. destruct 1; repeat constructor. Qed.

Lemma notify_events_counts obj l r (evs : list (event Msg)) l' :
  notify_events obj l r evs ->
  count (is_receive l') evs = count (is_accepted l') evs /\
  (count (is_accepted l') evs <= count (is_accept l') evs)%nat /\
  count (is_accept l') evs = (if bool_decide (l = l') then 1 else 0)%nat.
Proof. destruct 1; simpl; case_bool_decide; simpl; lia. Qed.

Lemma notify_events_not_dispatch obj l r (evs : list (event Msg)) :
  notify_events obj l r evs -> dispatched evs = [].
Proof. by destruct 1. Qed.

Lemma pass_events_obj obj ls r (evs : list (event Msg)) :
  pass_events obj ls r evs -> Forall (fun ev => event_obj ev = obj) evs.
Proof.
  induction 1 as [|l ls evs r evs' Hn _ IH|l ls e evs Hn].
  - constructor.
  - apply Forall_app. split; [by eapply notify_events_obj|done].
  - by eapply notify_events_obj.
Qed.

Lemma pass_events_not_dispatch obj ls r (evs : list (event Msg)) :
  pass_events obj ls r evs -> dispatched evs = [].
Proof.
  induction 1 as [|l ls evs r evs' Hn _ IH|l ls e evs Hn].
  - done.
  - rewrite dispatched_app, IH. by rewrite (notify_events_not_dispatch _ _ _ _ Hn).
  - by eapply notify_events_not_dispatch.
Qed.

(** [receive] is called on a listener as often as its [accept] returned
    [True]. *)
Lemma pass_events_receive_accepted obj ls r (evs : list (event Msg)) l' :
  pass_events obj ls r evs ->
  count (is_receive l') evs = count (is_accepted l') evs /\
  (count (is_accepted l') evs <= count (is_accept l') evs)%nat.
Proof.
  induction 1 as [|l ls evs r evs' Hn _ IH|l ls e evs Hn].
  - simpl. lia.
  - rewrite !count_app.
    destruct (notify_events_counts _ _ _ _ l' Hn) as (? & ? & _). lia.
  - destruct (notify_events_counts _ _ _ _ l' Hn) as (? & ? & _). lia.
Qed.

(** A listener that the loop does not visit is not called. *)
Lemma pass_events_absent obj ls r (evs : list (event Msg)) l' :
  pass_events obj ls r evs -> l' ∉ ls -> count (is_accept l') evs = 0%nat.
Proof.
  induction 1 as [|l ls evs r evs' Hn _ IH|l ls e evs Hn]; intros Hnotin.
  - done.
  - rewrite count_app, IH by set_solver.
    destruct (notify_events_counts _ _ _ _ l' Hn) as (_ & _ & ->).
    rewrite bool_decide_eq_false_2; [done|set_solver].
  - destruct (notify_events_counts _ _ _ _ l' Hn) as (_ & _ & ->).
    rewrite bool_decide_eq_false_2; [done|set_solver].
Qed.

(** No listener is asked twice in a pass. *)
Lemma pass_events_at_most_once obj ls r (evs : list (event Msg)) l' :
  pass_events obj ls r evs -> NoDup ls -> (count (is_accept l') evs <= 1)%nat.
Proof.
  induction 1 as [|l ls evs r evs' Hn Hp IH|l ls e evs Hn]; intros Hnodup.
  - simpl. lia.
  - apply NoDup_cons in Hnodup as [Hl Hnodup]. rewrite count_app.
    destruct (notify_events_counts _ _ _ _ l' Hn) as (_ & _ & ->).
    case_bool_decide as Heq.
    + subst l'. rewrite (pass_events_absent _ _ _ _ _ Hp Hl). lia.
    + specialize (IH Hnodup). lia.
  - destruct (notify_events_counts _ _ _ _ l' Hn) as (_ & _ & ->).
    case_bool_decide; lia.
Qed.

(** A pass that returns has asked every listener. *)
Lemma pass_events_all_asked obj ls (evs : list (event Msg)) l' :
  pass_events obj ls (Returned tt) evs -> NoDup ls -> l' ∈ ls ->
  count (is_accept l') evs = 1%nat.
Proof.
  intros Hp. remember (Returned tt) as r eqn:Hr.
  induction Hp as [|l ls evs r evs' Hn Hp IH|l ls e evs Hn]; intros Hnodup Hin.
  - set_solver.
  - apply NoDup_cons in Hnodup as [Hl Hnodup]. rewrite count_app.
    destruct (notify_events_counts _ _ _ _ l' Hn) as (_ & _ & ->).
    case_bool_decide as Heq.
    + subst l'. rewrite (pass_events_absent _ _ _ _ _ Hp Hl). lia.
    + apply elem_of_cons in Hin as [->|Hin]; [done|]. rewrite IH by done. lia.
  - done.
Qed.

(** In an iteration without repeats, what comes after [l] is neither [l]
    nor before it. *)
Lemma later_not_earlier (pre post : list ref) (l l' : ref) :
  NoDup (pre ++ l :: post) -> l' ∈ post -> l' ∉ pre ++ [l].
Proof.
  intros (_ & Hpre & Hnodup)%NoDup_app Hpost.
  apply NoDup_cons in Hnodup as [Hl _].
  intros [Hin | Hin]%elem_of_app.
  - apply (Hpre l' Hin). by apply list_elem_of_further.
  - apply list_elem_of_singleton in Hin. by subst.
Qed.

End Events.

Section Properties.

Context {Msg App : Type}.
Variable process_data : bytes -> Msg.
Variable heap : ref -> MessageListener Msg App.

Implicit Types (s : State Msg App) (c : Connection) (sk : Socket).

(** *** The monad *)

Lemma with_self_id s : with_self (self s) s = s.
Proof. by destruct s. Qed.

Lemma set___socket_id c sk : __socket c = Some sk -> set___socket (Some sk) c = c.
Proof. destruct c; simpl; by intros ->. Qed.

(** A method call on the socket of a Connection that has one. *)
Lemma socket_call_some {A} method (f : Socket -> outcome A * Socket) s sk :
  __socket (self s) = Some sk ->
  socket_call method f s =
    (fst (f sk), with_self (set___socket (Some (snd (f sk))) (self s)) s).
Proof.
  intros Hsk. unfold socket_call, bind, get_self. rewrite Hsk.
  by destruct (f sk) as [r sk'].
Qed.

Lemma socket_call_none {A} method (f : Socket -> outcome A * Socket) s :
  __socket (self s) = None ->
  exists e, socket_call method f s = (Raised e, s) /\ exn_type e = AttributeError.
Proof.
  intros Hsk. unfold socket_call, bind, get_self. rewrite Hsk. by eexists.
Qed.

(** *** connect and disconnect *)

(** C5: [connect] on a Connection that is alive, and [disconnect] on one that
    is not, return [False] and change nothing: the socket, the alive flag, the
    listener set and everything else in the state are as before, and nothing
    is raised. *)
Theorem C5_double_connect_disconnect_noop s net ip_address port timeout :
  (__is_connection_alive (self s) = true ->
   connect net ip_address port timeout s = (Returned false, s)) /\
  (__is_connection_alive (self s) = false ->
   disconnect s = (Returned false, s)).
Proof.
  split; intros Halive.
  - unfold connect, bind, get_self. by rewrite Halive.
  - unfold disconnect, bind, get_self. by rewrite Halive.
Qed.

(** C7: [disconnect] on a Connection that is alive closes the socket, clears
    the alive flag and returns [True]. *)
Theorem C7_disconnect_alive s :
  wf (self s) ->
  __is_connection_alive (self s) = true ->
  exists sk,
    __socket (self s) = Some sk /\
    sock_closed (snd (close sk)) = true /\
    disconnect s =
      (Returned true,
       with_self (mkConnection (Some (snd (close sk))) false
                    (__listen_thread (self s)) (__listeners (self s))) s).
Proof.
  intros Hwf Halive. destruct (Hwf Halive) as (sk & Hsk & _).
  exists sk. split; [done|]. split; [done|].
  unfold disconnect, bind, get_self. rewrite Halive.
  by rewrite (socket_call_some _ _ _ sk Hsk).
Qed.

(** C6: on a Connection that is not alive, when making the socket or
    connecting it raises a socket error, [connect] prints the failure, leaves
    the Connection not alive and returns [False]; nothing is raised. *)
Theorem C6_connect_failure s net ip_address port timeout e :
  __is_connection_alive (self s) = false ->
  is_socket_error e = true ->
  net_socket net = Some e \/
  (net_socket net = None /\ 0 <= timeout /\ net_connect net ip_address port = Some e) ->
  exists s',
    connect net ip_address port timeout s = (Returned false, s') /\
    __is_connection_alive (self s') = false /\
    fst (is_connection_alive s') = Returned false /\
    stdout s' = stdout s ++ ["Caught exception socket.error : " +:+ exn_str e] /\
    __listeners (self s') = __listeners (self s) /\
    __listen_thread (self s') = __listen_thread (self s) /\
    app s' = app s /\ trace s' = trace s.
Proof.
  intros Halive Hsock Hfail.
  unfold connect, bind, get_self, try_except_socket_error. rewrite Halive. simpl.
  destruct Hfail as [Hnew | (Hnew & Ht & Hconn)].
  - unfold socket_socket. rewrite Hnew. unfold raise. rewrite Hsock. simpl.
    eexists. split; [reflexivity|]. simpl. done.
  - unfold socket_socket. rewrite Hnew. simpl.
    unfold socket_call, bind, get_self. simpl.
    unfold settimeout. destruct (Z.ltb_spec timeout 0) as [|_]; [lia|]. simpl.
    unfold sock_connect. simpl. rewrite Hconn. simpl. rewrite Hsock. simpl.
    eexists. split; [reflexivity|]. simpl. done.
Qed.

(** [connect] on a Connection that is not alive, when the network lets it
    through: the flag is set, the thread is started, [True] is returned. *)
Lemma connect_success s net ip_address port timeout :
  __is_connection_alive (self s) = false ->
  net_socket net = None ->
  0 <= timeout ->
  net_connect net ip_address port = None ->
  net_thread_start net = None ->
  connect net ip_address port timeout s =
    (Returned true,
     with_self (mkConnection
                  (Some (mkSocket (Some timeout) (Some (ip_address, port)) false []))
                  true (Some (mkThread true)) (__listeners (self s))) s).
Proof.
  intros Halive Hnew Ht Hconn Hstart.
  unfold connect, bind, get_self, try_except_socket_error. rewrite Halive. simpl.
  unfold socket_socket. rewrite Hnew. simpl.
  unfold socket_call, bind, get_self. simpl.
  unfold settimeout. destruct (Z.ltb_spec timeout 0) as [|_]; [lia|]. simpl.
  unfold sock_connect. simpl. rewrite Hconn. simpl.
  unfold thread_start. by rewrite Hstart.
Qed.

(** *** The invariant *)

Lemma wf_init : wf __init__.
Proof. by intros ?. Qed.

Lemma wf_not_alive c : __is_connection_alive c = false -> wf c.
Proof. unfold wf. by intros ->. Qed.

Lemma wf_connect s net ip_address port timeout :
  wf (self s) -> wf (self (snd (connect net ip_address port timeout s))).
Proof.
  intros Hwf. unfold connect, bind, get_self.
  destruct (__is_connection_alive (self s)) eqn:Halive; simpl; [done|].
  unfold try_except_socket_error, socket_socket, bind.
  destruct (net_socket net) as [e|]; simpl.
  { destruct (is_socket_error e); simpl; [by apply wf_not_alive|].
    by apply wf_not_alive. }
  unfold socket_call, bind, get_self. simpl. unfold settimeout.
  destruct (timeout <? 0); simpl; [by apply wf_not_alive|].
  unfold sock_connect. simpl.
  destruct (net_connect net ip_address port) as [e|]; simpl.
  { destruct (is_socket_error e); simpl; by apply wf_not_alive. }
  unfold thread_start.
  destruct (net_thread_start net) as [e|]; simpl.
  { destruct (is_socket_error e); simpl; [by apply wf_not_alive|].
    intros _. eexists. by repeat split. }
  intros _. eexists. by repeat split.
Qed.

Lemma wf_disconnect s : wf (self s) -> wf (self (snd (disconnect s))).
Proof.
  intros Hwf. unfold disconnect, bind, get_self.
  destruct (__is_connection_alive (self s)) eqn:Halive; simpl; [|done].
  destruct (Hwf Halive) as (sk & Hsk & _).
  rewrite (socket_call_some _ _ _ sk Hsk). simpl. by apply wf_not_alive.
Qed.

Lemma wf_send_data s data :
  wf (self s) -> wf (self (snd (send_data data s))).
Proof.
  intros Hwf. unfold send_data.
  destruct (__socket (self s)) as [sk|] eqn:Hsk.
  - rewrite (socket_call_some _ _ _ sk Hsk). simpl.
    intros Halive. destruct (Hwf Halive) as (sk' & Hsk' & Hopen & Hpeer).
    assert (sk' = sk) as -> by congruence.
    unfold sock_send. rewrite Hopen.
    destruct (sock_peer sk); simpl; eexists; (split; [reflexivity|done]).
  - destruct (socket_call_none "send" (sock_send data) s Hsk) as (e & -> & _). done.
Qed.

Lemma wf_send s message crlf_ending :
  wf (self s) -> wf (self (snd (send message crlf_ending s))).
Proof.
  intros Hwf. unfold send, bind, lift.
  destruct (bytes_utf8 _) as [data|e]; simpl; [|done].
  by apply wf_send_data.
Qed.

Lemma wf_add_listener s listener :
  wf (self s) -> wf (self (snd (add_listener listener s))).
Proof. done. Qed.

Lemma wf_remove_listener s listener :
  wf (self s) -> wf (self (snd (remove_listener listener s))).
Proof.
  intros Hwf. unfold remove_listener, bind, get_self. by case_bool_decide.
Qed.

(** *** send *)

Lemma utf8_app (s1 s2 : str) :
  utf8 (s1 ++ s2) =
    match utf8 s1, utf8 s2 with
    | Some b1, Some b2 => Some (b1 ++ b2)
    | _, _ => None
    end.
Proof.
  induction s1 as [|c s1 IH]; simpl.
  - by destruct (utf8 s2).
  - rewrite IH. destruct (utf8_char c) as [b|]; [|done].
    destruct (utf8 s1) as [b1|], (utf8 s2) as [b2|]; try done.
    by rewrite app_assoc.
Qed.

Lemma utf8_crlf (message : str) (b : bytes) :
  utf8 message = Some b -> utf8 (message ++ crlf) = Some (b ++ CRLF).
Proof. intros Hb. rewrite utf8_app, Hb. reflexivity. Qed.




(** A message with a code point that UTF-8 cannot encode: [send] raises and
    nothing is sent. *)
Lemma send_unencodable message crlf_ending s :
  utf8 message = None ->
  exists e, send message crlf_ending s = (Raised e, s) /\
            exn_type e = UnicodeEncodeError.
Proof.
  intros Hnone. unfold send, bind, lift, bytes_utf8.
  destruct (crlf_ending && negb (endswith message crlf)).
  - rewrite utf8_app, Hnone. by eexists.
  - rewrite Hnone. by eexists.
Qed.

Lemma utf8_char_surrogate (c : N) : is_surrogate c -> utf8_char c = None.
Proof.
  intros [Hlo Hhi]. unfold utf8_char.
  destruct (N.ltb_spec c 0x80); [lia|].
  destruct (N.ltb_spec c 0x800); [lia|].
  destruct (N.ltb_spec c 0x10000); [|lia].
  by rewrite (proj2 (N.leb_le _ _) Hlo), (proj2 (N.leb_le _ _) Hhi).
Qed.

Lemma utf8_surrogate (before after : str) (c : N) :
  is_surrogate c -> utf8 (before ++ c :: after) = None.
Proof.
  intros Hc. rewrite utf8_app. cbn [utf8]. rewrite (utf8_char_surrogate c Hc).
  by destruct (utf8 before).
Qed.




(** *** Listeners: the set *)

(** C10: [remove_listener] with a listener that is not in the set raises (the
    [KeyError] of [set.remove]) and leaves the set, and the rest of the state,
    as they were. *)
Theorem C10_remove_missing_listener_raises s listener :
  listener ∉ __listeners (self s) ->
  exists e,
    remove_listener listener s = (Raised e, s) /\ exn_type e = KeyError.
Proof.
  intros Hnotin. unfold remove_listener, bind, get_self.
  rewrite bool_decide_eq_false_2 by done. by eexists.
Qed.

(** *** Dispatch *)

(** One turn of the loop: what is called, in terms of what the callbacks of
    the listener do on the application state. *)
Lemma notify_unfold obj l s :
  notify heap obj l s =
    match accept (heap l) obj (app s) with
    | (Returned true, a1) =>
        let '(r, a2) := receive (heap l) obj a1 in
        (r, mkState (self s) a2
              (trace s ++ [EvAccept l obj (Returned true)] ++ [EvReceive l obj r])
              (stdout s))
    | (Returned false, a1) =>
        (Returned tt,
         mkState (self s) a1 (trace s ++ [EvAccept l obj (Returned false)]) (stdout s))
    | (Raised e, a1) =>
        (Raised e,
         mkState (self s) a1 (trace s ++ [EvAccept l obj (Raised e)]) (stdout s))
    end.
Proof.
  unfold notify, bind, called, run, record.
  destruct (accept (heap l) obj (app s)) as [[[|]|e] a1]; simpl; try done.
  destruct (receive (heap l) obj a1) as [r a2]; simpl.
  by rewrite <- app_assoc.
Qed.

Lemma notify_spec obj l s :
  exists evs,
    notify_events obj l (fst (notify heap obj l s)) evs /\
    trace (snd (notify heap obj l s)) = trace s ++ evs /\
    self (snd (notify heap obj l s)) = self s /\
    stdout (snd (notify heap obj l s)) = stdout s.
Proof.
  rewrite notify_unfold.
  destruct (accept (heap l) obj (app s)) as [[[|]|e] a1]; simpl.
  - destruct (receive (heap l) obj a1) as [[[]|e] a2]; simpl;
      eexists; (split; [constructor|done]).
  - eexists; (split; [constructor|done]).
  - eexists; (split; [constructor|done]).
Qed.

Lemma for_each_notify_spec obj ls s :
  exists evs,
    pass_events obj ls (fst (for_each ls (notify heap obj) s)) evs /\
    trace (snd (for_each ls (notify heap obj) s)) = trace s ++ evs /\
    self (snd (for_each ls (notify heap obj) s)) = self s /\
    stdout (snd (for_each ls (notify heap obj) s)) = stdout s.
Proof.
  revert s. induction ls as [|l ls IH]; intros s; simpl.
  { exists []. split; [constructor|]. by rewrite app_nil_r. }
  unfold bind.
  destruct (notify_spec obj l s) as (evs & Hevs & Htr & Hself & Hout).
  destruct (notify heap obj l s) as [[[]|e] s1]; simpl in *.
  - destruct (IH s1) as (evs' & Hevs' & Htr' & Hself' & Hout').
    exists (evs ++ evs'). split; [by econstructor|].
    rewrite Htr', Htr, Hself', Hout'. by rewrite app_assoc.
  - exists evs. split; [by constructor|done].
Qed.

Lemma dispatch_spec obj s :
  exists evs,
    pass_events obj (elements (__listeners (self s)))
      (fst (__dispatch_listeners heap obj s)) evs /\
    trace (snd (__dispatch_listeners heap obj s)) = trace s ++ EvDispatch obj :: evs /\
    self (snd (__dispatch_listeners heap obj s)) = self s /\
    stdout (snd (__dispatch_listeners heap obj s)) = stdout s.
Proof.
  unfold __dispatch_listeners, bind, record, get_self. simpl.
  set (s0 := mkState (self s) (app s) (trace s ++ [EvDispatch obj]) (stdout s)).
  destruct (for_each_notify_spec obj (elements (__listeners (self s))) s0)
    as (evs & Hevs & Htr & Hself & Hout).
  exists evs. split; [done|]. rewrite Htr. simpl. by rewrite <- app_assoc.
Qed.

(** The loop over the listeners is the contract run on them. *)
Lemma for_each_notify_contract obj ls s :
  for_each ls (notify heap obj) s =
    (fst (fst (contract_run heap obj ls (app s))),
     mkState (self s) (snd (fst (contract_run heap obj ls (app s))))
       (trace s ++ snd (contract_run heap obj ls (app s))) (stdout s)).
Proof.
  revert s. induction ls as [|l ls IH]; intros s.
  { simpl. unfold ret. rewrite app_nil_r. by destruct s. }
  cbn [for_each contract_run]. unfold bind. rewrite notify_unfold.
  destruct (accept (heap l) obj (app s)) as [[[|]|e] a1]; [| |done].
  - destruct (receive (heap l) obj a1) as [[[]|e] a2]; [|done].
    rewrite IH. simpl.
    destruct (contract_run heap obj ls a2) as [[r a3] evs]. simpl.
    by rewrite <- app_assoc.
  - rewrite IH. simpl.
    destruct (contract_run heap obj ls a1) as [[r a3] evs]. simpl.
    by rewrite <- app_assoc.
Qed.

Lemma dispatch_contract_run obj s :
  __dispatch_listeners heap obj s =
    (fst (fst (contract_run heap obj (elements (__listeners (self s))) (app s))),
     mkState (self s)
       (snd (fst (contract_run heap obj (elements (__listeners (self s))) (app s))))
       (trace s ++
        EvDispatch obj :: snd (contract_run heap obj (elements (__listeners (self s))) (app s)))
       (stdout s)).
Proof.
  unfold __dispatch_listeners, bind, record, get_self. simpl.
  rewrite for_each_notify_contract. simpl. by rewrite <- app_assoc.
Qed.

(** What the contract run does with one listener, by what its callbacks do. *)
Lemma contract_run_one obj l a :
  contract_run heap obj [l] a =
    match __filter (heap l) obj a with
    | (Returned true, a1) =>
        (fst (__receive (heap l) obj a1), snd (__receive (heap l) obj a1),
         [EvAccept l obj (Returned true);
          EvReceive l obj (fst (__receive (heap l) obj a1))])
    | (Returned false, a1) => (Returned tt, a1, [EvAccept l obj (Returned false)])
    | (Raised e, a1) => (Raised e, a1, [EvAccept l obj (Raised e)])
    end.
Proof.
  cbn [contract_run]. unfold accept, receive.
  destruct (__filter (heap l) obj a) as [[[|]|e] a1]; try done.
  by destruct (__receive (heap l) obj a1) as [[[]|e] a2].
Qed.

(** C3, as the code has it, for listeners whose callbacks act on the state
    of the application.  A dispatch of [obj] is the contract run on the
    listeners of the set, in the order of the iteration, from the state of
    the application: it ends as the run ends, leaves the application in the
    state the callbacks of the listeners left it in, and makes the calls of
    the run, each recorded with the result the listener gave; the Connection
    and what was printed are as before.  On one listener the run calls the
    stored filter, and the stored handler exactly if the filter returned
    [True].  So, for every listener [l]: [receive] is called on [l] as often
    as [accept] on [l] returned [True], at most once; every call is about
    [obj]; a listener outside the set is not called; when the dispatch
    returns every listener of the set was asked once.
    [MessageListener.accept] is the stored filter, result unchanged, and
    [MessageListener.receive] is the stored handler. *)
Theorem C3_dispatch_contract obj s :
  __dispatch_listeners heap obj s =
    (fst (fst (contract_run heap obj (elements (__listeners (self s))) (app s))),
     mkState (self s)
       (snd (fst (contract_run heap obj (elements (__listeners (self s))) (app s))))
       (trace s ++
        EvDispatch obj :: snd (contract_run heap obj (elements (__listeners (self s))) (app s)))
       (stdout s)) /\
  (forall l a,
     contract_run heap obj [l] a =
       match __filter (heap l) obj a with
       | (Returned true, a1) =>
           (fst (__receive (heap l) obj a1), snd (__receive (heap l) obj a1),
            [EvAccept l obj (Returned true);
             EvReceive l obj (fst (__receive (heap l) obj a1))])
       | (Returned false, a1) => (Returned tt, a1, [EvAccept l obj (Returned false)])
       | (Raised e, a1) => (Raised e, a1, [EvAccept l obj (Raised e)])
       end) /\
  (exists evs,
     evs = snd (contract_run heap obj (elements (__listeners (self s))) (app s)) /\
     trace (snd (__dispatch_listeners heap obj s)) = trace s ++ EvDispatch obj :: evs /\
     Forall (fun ev => event_obj ev = obj) evs /\
     forall l,
       count (is_receive l) evs = count (is_accepted l) evs /\
       (count (is_accepted l) evs <= count (is_accept l) evs)%nat /\
       (count (is_accept l) evs <= 1)%nat /\
       (l ∉ __listeners (self s) -> count (is_accept l) evs = 0%nat) /\
       (l ∈ __listeners (self s) ->
        fst (__dispatch_listeners heap obj s) = Returned tt ->
        count (is_accept l) evs = 1%nat)) /\
  (forall (ml : MessageListener Msg App) message a,
     accept ml message a = __filter ml message a /\
     receive ml message a = __receive ml message a).
Proof.
  split; [apply dispatch_contract_run|]. split; [apply contract_run_one|]. split.
  - destruct (dispatch_spec obj s) as (evs & Hp & Htr & _).
    assert (evs = snd (contract_run heap obj (elements (__listeners (self s))) (app s)))
      as Hevs.
    { rewrite dispatch_contract_run in Htr. simpl in Htr.
      apply app_inv_head in Htr. by injection Htr as <-. }
    exists evs. split; [done|]. split; [done|]. split; [by eapply pass_events_obj|].
    intros l.
    destruct (pass_events_receive_accepted _ _ _ _ l Hp) as [Hrecv Hacc].
    repeat split; try done.
    + eapply pass_events_at_most_once; [done|]. apply NoDup_elements.
    + intros Hl. eapply pass_events_absent; [done|]. by rewrite elem_of_elements.
    + intros Hl Hret. rewrite Hret in Hp.
      eapply pass_events_all_asked; [done|apply NoDup_elements|].
      by rewrite elem_of_elements.
  - intros ml message a. split; [done|]. unfold receive.
    by destruct (__receive ml message a) as [[[]|e] a'].
Qed.

(** *** The receive loop *)

(** [recv] on the socket of a Connection that is alive: the input, and no
    change of state. *)
Lemma recv_alive buffer_size input s :
  wf (self s) ->
  __is_connection_alive (self s) = true ->
  socket_call "recv" (recv buffer_size input) s = (input, s).
Proof.
  intros Hwf Halive. destruct (Hwf Halive) as (sk & Hsk & Hopen & _).
  rewrite (socket_call_some _ _ _ sk Hsk). unfold recv. rewrite Hopen. simpl.
  by rewrite (set___socket_id _ _ Hsk), with_self_id.
Qed.

Lemma listen_not_alive buffer_size inputs s :
  __is_connection_alive (self s) = false ->
  __listen process_data heap buffer_size inputs s = (Returned LoopExit, s).
Proof.
  intros Halive. destruct inputs; simpl; unfold bind, get_self; by rewrite Halive.
Qed.

Lemma listen_no_input buffer_size s :
  __is_connection_alive (self s) = true ->
  __listen process_data heap buffer_size [] s = (Returned LoopBlocked, s).
Proof. intros Halive. simpl. unfold bind, get_self. by rewrite Halive. Qed.

Lemma listen_recv_raises buffer_size e inputs s :
  wf (self s) ->
  __is_connection_alive (self s) = true ->
  __listen process_data heap buffer_size (Raised e :: inputs) s = (Raised e, s).
Proof.
  intros Hwf Halive. simpl. unfold bind at 1, get_self. rewrite Halive.
  unfold bind at 1. by rewrite recv_alive.
Qed.

(** A read of no bytes: the flag is cleared and the loop is left. *)
Lemma listen_empty_read buffer_size inputs s :
  wf (self s) ->
  __is_connection_alive (self s) = true ->
  __listen process_data heap buffer_size (Returned [] :: inputs) s =
    (Returned LoopExit, with_self (set___is_connection_alive false (self s)) s).
Proof.
  intros Hwf Halive. simpl. unfold bind at 1, get_self. rewrite Halive.
  unfold bind at 1. rewrite recv_alive by done.
  unfold bind at 1. simpl. by rewrite listen_not_alive.
Qed.

(** A read of some bytes: one dispatch, of the decoded first piece; what it
    raises ends the loop. *)
Lemma listen_data_read buffer_size data inputs s :
  wf (self s) ->
  __is_connection_alive (self s) = true ->
  data <> [] ->
  __listen process_data heap buffer_size (Returned data :: inputs) s =
    match __dispatch_listeners heap (process_data (before_crlf data)) s with
    | (Returned _, s1) => __listen process_data heap buffer_size inputs s1
    | (Raised e, s1) => (Raised e, s1)
    end.
Proof.
  intros Hwf Halive Hdata. simpl. unfold bind at 1, get_self. rewrite Halive.
  unfold bind at 1. rewrite recv_alive by done.
  destruct data as [|b data]; [done|].
  rewrite take_1_split. unfold bind at 1. cbn [for_each]. unfold bind at 1.
  destruct (__dispatch_listeners heap _ s) as [[[]|e] s1]; [|done].
  by unfold ret.
Qed.

Lemma wf_dispatch obj s :
  wf (self s) -> wf (self (snd (__dispatch_listeners heap obj s))).
Proof. destruct (dispatch_spec obj s) as (_ & _ & _ & -> & _). done. Qed.

Lemma wf_listen buffer_size inputs s :
  wf (self s) -> wf (self (snd (__listen process_data heap buffer_size inputs s))).
Proof.
  revert s. induction inputs as [|input inputs IH]; intros s Hwf.
  - destruct (__is_connection_alive (self s)) eqn:Halive.
    + by rewrite listen_no_input.
    + by rewrite listen_not_alive.
  - destruct (__is_connection_alive (self s)) eqn:Halive;
      [|by rewrite listen_not_alive].
    destruct input as [[|b data]|e].
    + rewrite listen_empty_read by done. by apply wf_not_alive.
    + rewrite listen_data_read by done.
      pose proof (wf_dispatch (process_data (before_crlf (b :: data))) s Hwf) as Hwf1.
      destruct (__dispatch_listeners heap _ s) as [[[]|e] s1]; [by apply IH|done].
    + by rewrite listen_recv_raises.
Qed.

(** Every state the program gets to satisfies the invariant. *)
Lemma reachable_wf s : reachable_state process_data heap s -> wf (self s).
Proof.
  induction 1.
  - apply wf_init.
  - by apply wf_connect.
  - by apply wf_disconnect.
  - by apply wf_send_data.
  - by apply wf_send.
  - by apply wf_add_listener.
  - by apply wf_remove_listener.
  - by apply wf_listen.
Qed.

(** C9: in a Connection that is alive, a read of no bytes makes the loop
    clear the alive flag and end; it returns (nothing is raised), the socket
    is left as it was (still open: [close] is not called), and nothing is
    dispatched or printed. *)
Theorem C9_empty_read_ends_loop buffer_size inputs s :
  wf (self s) ->
  __is_connection_alive (self s) = true ->
  exists s',
    __listen process_data heap buffer_size (Returned [] :: inputs) s =
      (Returned LoopExit, s') /\
    __is_connection_alive (self s') = false /\
    __socket (self s') = __socket (self s) /\
    (exists sk, __socket (self s') = Some sk /\ sock_closed sk = false) /\
    __listeners (self s') = __listeners (self s) /\
    app s' = app s /\ trace s' = trace s /\ stdout s' = stdout s.
Proof.
  intros Hwf Halive. eexists. split; [by apply listen_empty_read|].
  simpl. destruct (Hwf Halive) as (sk & Hsk & Hopen & _).
  repeat split; try done. by exists sk.
Qed.

(** Listeners that never raise: every dispatch returns. *)
Lemma for_each_notify_returns obj ls s :
  (forall l, l ∈ ls -> never_raises (heap l)) ->
  fst (for_each ls (notify heap obj) s) = Returned tt.
Proof.
  revert s. induction ls as [|l ls IH]; intros s Hquiet; [done|].
  cbn [for_each]. unfold bind. rewrite notify_unfold.
  assert (never_raises (heap l)) as Hl by (apply Hquiet; set_solver).
  assert (forall s1, fst (for_each ls (notify heap obj) s1) = Returned tt) as Hrest.
  { intros s1. apply IH. intros l' Hl'. apply Hquiet. set_solver. }
  destruct (Hl obj (app s)) as [[b Hacc] _].
  destruct (accept (heap l) obj (app s)) as [racc a1]. simpl in Hacc. subst racc.
  destruct b.
  - destruct (Hl obj a1) as [_ Hrecv].
    destruct (receive (heap l) obj a1) as [rrecv a2]. simpl in Hrecv. subst rrecv.
    apply Hrest.
  - apply Hrest.
Qed.

Lemma dispatch_returns obj s :
  (forall l, l ∈ __listeners (self s) -> never_raises (heap l)) ->
  fst (__dispatch_listeners heap obj s) = Returned tt.
Proof.
  intros Hquiet. unfold __dispatch_listeners, bind, record, get_self. simpl.
  apply for_each_notify_returns. intros l Hl. apply Hquiet.
  by rewrite elem_of_elements in Hl.
Qed.

(** The loop over reads that all hold bytes, with listeners that never
    raise: each read gives one dispatch, of the decoded first piece of that
    read; the loop then waits for the next read. *)
Lemma listen_reads buffer_size (datas : list bytes) s :
  wf (self s) ->
  __is_connection_alive (self s) = true ->
  (forall l, l ∈ __listeners (self s) -> never_raises (heap l)) ->
  Forall (fun data => data <> []) datas ->
  exists s',
    __listen process_data heap buffer_size (Returned <$> datas) s =
      (Returned LoopBlocked, s') /\
    dispatched (trace s') =
      dispatched (trace s) ++ ((fun data => process_data (before_crlf data)) <$> datas) /\
    self s' = self s /\
    stdout s' = stdout s.
Proof.
  revert s. induction datas as [|data datas IH]; intros s Hwf Halive Hquiet Hdatas.
  { exists s. rewrite listen_no_input by done. by rewrite app_nil_r. }
  apply Forall_cons in Hdatas as [Hdata Hdatas].
  cbn [fmap list_fmap]. rewrite listen_data_read by done.
  set (obj := process_data (before_crlf data)).
  pose proof (dispatch_returns obj s Hquiet) as Hret.
  destruct (dispatch_spec obj s) as (evs & Hp & Htr & Hself & Hout).
  destruct (__dispatch_listeners heap obj s) as [r s1]. simpl in *. subst r.
  destruct (IH s1) as (s' & Hrun & Hdisp & Hself' & Hout');
    [by rewrite Hself|by rewrite Hself|by rewrite Hself|done|].
  exists s'. split; [done|]. split; [|by rewrite Hself', Hout'].
  rewrite Hdisp, Htr. rewrite dispatched_app. cbn [dispatched omap list_omap].
  fold (dispatched evs). rewrite (pass_events_not_dispatch _ _ _ _ Hp).
  by rewrite <- app_assoc.
Qed.

(** One read that holds bytes, whatever the listeners do: one dispatch, and
    the state is the one the dispatch leaves. *)
Lemma listen_one_read buffer_size data s :
  wf (self s) ->
  __is_connection_alive (self s) = true ->
  data <> [] ->
  snd (__listen process_data heap buffer_size [Returned data] s) =
    snd (__dispatch_listeners heap (process_data (before_crlf data)) s) /\
  dispatched (trace (snd (__listen process_data heap buffer_size [Returned data] s))) =
    dispatched (trace s) ++ [process_data (before_crlf data)] /\
  self (snd (__listen process_data heap buffer_size [Returned data] s)) = self s.
Proof.
  intros Hwf Halive Hdata. rewrite listen_data_read by done.
  destruct (dispatch_spec (process_data (before_crlf data)) s)
    as (evs & Hp & Htr & Hself & _).
  assert (snd (match __dispatch_listeners heap (process_data (before_crlf data)) s with
               | (Returned _, s1) => __listen process_data heap buffer_size [] s1
               | (Raised e, s1) => (Raised e, s1)
               end)
          = snd (__dispatch_listeners heap (process_data (before_crlf data)) s)) as ->.
  { destruct (__dispatch_listeners heap _ s) as [[[]|e] s1]; [|done].
    simpl in Hself. rewrite listen_no_input; [done|]. by rewrite Hself. }
  split; [done|]. split; [|done].
  rewrite Htr, dispatched_app. cbn [dispatched omap list_omap].
  fold (dispatched evs). by rewrite (pass_events_not_dispatch _ _ _ _ Hp).
Qed.

(** A read with the complete segments [seg :: segs]: [split] finds them all,
    and the loop dispatches the first one only. *)
Lemma listen_frames buffer_size seg segs s :
  wf (self s) ->
  __is_connection_alive (self s) = true ->
  Forall (fun seg => ~ occurs_in CRLF seg) (seg :: segs) ->
  split (frames (seg :: segs)) CRLF = (seg :: segs) ++ [[]] /\
  dispatched (trace (snd (__listen process_data heap buffer_size
                            [Returned (frames (seg :: segs))] s))) =
    dispatched (trace s) ++ [process_data seg].
Proof.
  intros Hwf Halive Hsegs. split; [by apply split_frames|].
  destruct (listen_one_read buffer_size (frames (seg :: segs)) s Hwf Halive)
    as (_ & -> & _).
  - cbn [frames]. by destruct seg.
  - cbn [frames]. rewrite before_crlf_segment; [done|].
    by apply Forall_cons in Hsegs as [? _].
Qed.

(** *** A listener that raises *)

Lemma pass_events_raised obj ls e (evs : list (event Msg)) :
  pass_events obj ls (Raised e) evs ->
  exists pre l post evs0 last,
    ls = pre ++ l :: post /\
    evs = evs0 ++ [last] /\
    (last = EvAccept l obj (Raised e) \/ last = EvReceive l obj (Raised e)) /\
    pass_events obj (pre ++ [l]) (Raised e) evs.
Proof.
  intros Hp. remember (Raised e) as r eqn:Hr.
  induction Hp as [|l ls evs r evs' Hn Hp IH|l ls e' evs Hn]; [done| |].
  - destruct (IH Hr) as (pre & l0 & post & evs0 & last & -> & -> & Hlast & Hpass).
    exists (l :: pre), l0, post, (evs ++ evs0), last.
    split; [done|]. split; [by rewrite app_assoc|]. split; [done|].
    by apply (pe_next obj l (pre ++ [l0])).
  - injection Hr as ->.
    exists [], l, ls. inversion Hn; subst.
    + exists [], (EvAccept l obj (Raised e)).
      repeat split; [by left|by apply pe_raised].
    + exists [EvAccept l obj (Returned true)], (EvReceive l obj (Raised e)).
      repeat split; [by right|by apply pe_raised].
Qed.

(** What a dispatch that raises has done: it stopped at the listener whose
    call raised; the listeners after it in the iteration were not called. *)
Lemma dispatch_raises obj s e :
  fst (__dispatch_listeners heap obj s) = Raised e ->
  exists pre l post evs last,
    elements (__listeners (self s)) = pre ++ l :: post /\
    trace (snd (__dispatch_listeners heap obj s)) =
      trace s ++ EvDispatch obj :: evs ++ [last] /\
    (last = EvAccept l obj (Raised e) \/ last = EvReceive l obj (Raised e)) /\
    forall l', l' ∈ post ->
      count (is_accept l') (evs ++ [last]) = 0%nat /\
      count (is_receive l') (evs ++ [last]) = 0%nat.
Proof.
  intros Hraise. destruct (dispatch_spec obj s) as (evs & Hp & Htr & _).
  rewrite Hraise in Hp.
  destruct (pass_events_raised _ _ _ _ Hp)
    as (pre & l & post & evs0 & last & Hls & -> & Hlast & Hpass).
  exists pre, l, post, evs0, last. repeat split; try done.
  - eapply pass_events_absent; [done|].
    eapply later_not_earlier; [|done]. rewrite <- Hls. apply NoDup_elements.
  - destruct (pass_events_receive_accepted _ _ _ _ l' Hpass) as [-> Hle].
    assert (count (is_accept l') (evs0 ++ [last]) = 0%nat) as Hzero; [|lia].
    eapply pass_events_absent; [done|].
    eapply later_not_earlier; [|done]. rewrite <- Hls. apply NoDup_elements.
Qed.

Lemma contract_run_app obj pre rest a :
  contract_run heap obj (pre ++ rest) a =
    match contract_run heap obj pre a with
    | (Returned _, a1, evs1) =>
        (fst (fst (contract_run heap obj rest a1)),
         snd (fst (contract_run heap obj rest a1)),
         evs1 ++ snd (contract_run heap obj rest a1))
    | (Raised e, a1, evs1) => (Raised e, a1, evs1)
    end.
Proof.
  revert a. induction pre as [|l pre IH]; intros a.
  { simpl. by destruct (contract_run heap obj rest a) as [[r a1] evs]. }
  change ((l :: pre) ++ rest) with (l :: (pre ++ rest)). cbn [contract_run].
  destruct (accept (heap l) obj a) as [[[|]|e] a1]; [| |done].
  - destruct (receive (heap l) obj a1) as [[[]|e] a2]; [|done].
    rewrite IH. by destruct (contract_run heap obj pre a2) as [[[[]|e] a3] evs].
  - rewrite IH. by destruct (contract_run heap obj pre a1) as [[[[]|e] a3] evs].
Qed.

Lemma contract_run_absent obj ls a l' :
  l' ∉ ls ->
  count (is_accept l') (snd (contract_run heap obj ls a)) = 0%nat /\
  count (is_receive l') (snd (contract_run heap obj ls a)) = 0%nat.
Proof.
  revert a. induction ls as [|l ls IH]; intros a Hnotin; [done|].
  apply not_elem_of_cons in Hnotin as [Hne Hnotin].
  assert (bool_decide (l = l') = false) as Hl by (by apply bool_decide_eq_false_2).
  cbn [contract_run].
  destruct (accept (heap l) obj a) as [[[|]|e] a1].
  - destruct (receive (heap l) obj a1) as [[[]|e] a2].
    + destruct (IH a2 Hnotin) as [Hacc Hrecv].
      destruct (contract_run heap obj ls a2) as [[r a3] evs]. simpl in *.
      rewrite Hl, Hacc, Hrecv. done.
    + simpl. by rewrite Hl.
  - destruct (IH a1 Hnotin) as [Hacc Hrecv].
    destruct (contract_run heap obj ls a1) as [[r a3] evs]. simpl in *.
    rewrite Hl, Hacc, Hrecv. done.
  - simpl. by rewrite Hl.
Qed.

(** A call that raises on [l]: what the contract run does there. *)
Lemma contract_run_raises obj l post a e :
  raises_at (heap l) obj a e ->
  exists a' calls,
    contract_run heap obj (l :: post) a = (Raised e, a', calls) /\
    raising_calls l obj e calls.
Proof.
  intros [Hacc | (a1 & Hacc & Hrecv)]; cbn [contract_run].
  - destruct (accept (heap l) obj a) as [racc a1]. simpl in Hacc. subst racc.
    eexists _, _. split; [done|]. by left.
  - rewrite Hacc.
    destruct (receive (heap l) obj a1) as [rrecv a2]. simpl in Hrecv. subst rrecv.
    eexists _, _. split; [done|]. by right.
Qed.

(** C4, as the code has it: an exception of a listener's [accept] or
    [receive] is not caught.  When the listeners before [l] in the iteration
    return and a call on [l] raises [e], the dispatch raises [e]: it stops
    at [l], so the listeners after [l] are not called for the message; [e]
    leaves [__listen], which reads no further input and dispatches no further
    message; the alive flag stays set. *)
Theorem C4_listener_exception_ends_loop buffer_size data inputs s pre l post e :
  wf (self s) ->
  __is_connection_alive (self s) = true ->
  data <> [] ->
  elements (__listeners (self s)) = pre ++ l :: post ->
  fst (fst (contract_run heap (process_data (before_crlf data)) pre (app s)))
    = Returned tt ->
  raises_at (heap l) (process_data (before_crlf data))
    (snd (fst (contract_run heap (process_data (before_crlf data)) pre (app s)))) e ->
  exists s' calls,
    fst (__dispatch_listeners heap (process_data (before_crlf data)) s) = Raised e /\
    __listen process_data heap buffer_size (Returned data :: inputs) s = (Raised e, s') /\
    __is_connection_alive (self s') = true /\
    trace s' =
      trace s ++
      EvDispatch (process_data (before_crlf data)) ::
      snd (contract_run heap (process_data (before_crlf data)) pre (app s)) ++ calls /\
    raising_calls l (process_data (before_crlf data)) e calls /\
    dispatched (trace s') = dispatched (trace s) ++ [process_data (before_crlf data)] /\
    forall l', l' ∈ post ->
      count (is_accept l')
        (snd (contract_run heap (process_data (before_crlf data)) pre (app s)) ++ calls)
        = 0%nat /\
      count (is_receive l')
        (snd (contract_run heap (process_data (before_crlf data)) pre (app s)) ++ calls)
        = 0%nat.
Proof.
  intros Hwf Halive Hdata Hls Hpre Hraise.
  set (obj := process_data (before_crlf data)) in *.
  destruct (contract_run_raises obj l post _ e Hraise) as (a' & calls & Hrun & Hcalls).
  assert (contract_run heap obj (elements (__listeners (self s))) (app s)
          = (Raised e, a', snd (contract_run heap obj pre (app s)) ++ calls)) as Hall.
  { rewrite Hls, contract_run_app.
    destruct (contract_run heap obj pre (app s)) as [[rpre a1] evs1].
    simpl in Hpre, Hrun |- *. subst rpre. by rewrite Hrun. }
  pose proof (dispatch_contract_run obj s) as Hdispatch. rewrite Hall in Hdispatch.
  simpl in Hdispatch.
  assert (forall l', l' ∈ post ->
    count (is_accept l') (snd (contract_run heap obj pre (app s)) ++ calls) = 0%nat /\
    count (is_receive l') (snd (contract_run heap obj pre (app s)) ++ calls) = 0%nat)
    as Hpost.
  { intros l' Hl'.
    assert (l' ∉ pre ++ [l]) as Hnotin.
    { eapply later_not_earlier; [|done]. rewrite <- Hls. apply NoDup_elements. }
    apply not_elem_of_app in Hnotin as [Hnpre Hnl].
    destruct (contract_run_absent obj pre (app s) l' Hnpre) as [Hacc Hrecv].
    assert (bool_decide (l = l') = false) as Hne.
    { apply bool_decide_eq_false_2. intros ->. apply Hnl. apply list_elem_of_here. }
    rewrite !count_app, Hacc, Hrecv.
    destruct Hcalls as [-> | ->]; simpl; by rewrite Hne. }
  eexists _, calls. split; [by rewrite Hdispatch|]. split.
  { rewrite listen_data_read by done. fold obj. by rewrite Hdispatch. }
  simpl. split; [done|]. split; [done|]. split; [done|]. split; [|done].
  rewrite dispatched_app. cbn [dispatched omap list_omap].
  fold (dispatched (snd (contract_run heap obj pre (app s)) ++ calls)).
  destruct (dispatch_spec obj s) as (evs & Hp & Htr & _).
  rewrite Hdispatch in Htr. simpl in Htr. apply app_inv_head in Htr.
  injection Htr as Htr. rewrite Htr.
  by rewrite (pass_events_not_dispatch _ _ _ _ Hp).
Qed.

End Properties.

(** ** The framing of the reference behaviour *)

(** C2: a read that holds bytes gives one dispatch: of the decoding of
    what precedes the first CR-LF of that read (of the whole read when it has
    no CR-LF), whatever the listeners do.  With listeners that never raise the
    loop goes through any number of such reads, one dispatch per read, each
    from the bytes of its own read only.  The other pieces of a read are
    dropped and nothing of a read is kept for the next one: the Connection
    object is the same after the reads.  With [_process_data] of the class the
    dispatched objects are those bytes. *)
Theorem C2_one_message_per_read :
  (forall (Msg App : Type) (process_data : bytes -> Msg)
          (heap : ref -> MessageListener Msg App)
          (buffer_size : Z) (data : bytes) (s : State Msg App),
     wf (self s) ->
     __is_connection_alive (self s) = true ->
     data <> [] ->
     dispatched (trace (snd (__listen process_data heap buffer_size [Returned data] s))) =
       dispatched (trace s) ++ [process_data (before_crlf data)] /\
     self (snd (__listen process_data heap buffer_size [Returned data] s)) = self s) /\
  (forall (Msg App : Type) (process_data : bytes -> Msg)
          (heap : ref -> MessageListener Msg App)
          (buffer_size : Z) (datas : list bytes) (s : State Msg App),
     wf (self s) ->
     __is_connection_alive (self s) = true ->
     (forall l, l ∈ __listeners (self s) -> never_raises (heap l)) ->
     Forall (fun data => data <> []) datas ->
     exists s',
       __listen process_data heap buffer_size (Returned <$> datas) s =
         (Returned LoopBlocked, s') /\
       dispatched (trace s') =
         dispatched (trace s) ++ ((fun data => process_data (before_crlf data)) <$> datas) /\
       length (dispatched (trace s')) = (length (dispatched (trace s)) + length datas)%nat /\
       self s' = self s) /\
  (forall (App : Type) (heap : ref -> MessageListener bytes App)
          (buffer_size : Z) (datas : list bytes) (s : State bytes App),
     wf (self s) ->
     __is_connection_alive (self s) = true ->
     (forall l, l ∈ __listeners (self s) -> never_raises (heap l)) ->
     Forall (fun data => data <> []) datas ->
     exists s',
       __listen _process_data heap buffer_size (Returned <$> datas) s =
         (Returned LoopBlocked, s') /\
       dispatched (trace s') = dispatched (trace s) ++ (before_crlf <$> datas) /\
       self s' = self s) /\
  (forall data,
     first_segment data (before_crlf data) /\
     forall pre, first_segment data pre -> pre = before_crlf data).
Proof.
  split; [|split; [|split]].
  - intros Msg App process_data heap buffer_size data s Hwf Halive Hdata.
    by destruct (listen_one_read process_data heap buffer_size data s Hwf Halive Hdata)
      as (_ & Hdisp & Hself).
  - intros Msg App process_data heap buffer_size datas s Hwf Halive Hquiet Hdatas.
    destruct (listen_reads process_data heap buffer_size datas s Hwf Halive Hquiet Hdatas)
      as (s' & Hrun & Hdisp & Hself & _).
    exists s'. repeat split; try done.
    rewrite Hdisp, length_app. by rewrite length_fmap.
  - intros App heap buffer_size datas s Hwf Halive Hquiet Hdatas.
    destruct (listen_reads _process_data heap buffer_size datas s Hwf Halive Hquiet Hdatas)
      as (s' & Hrun & Hdisp & Hself & _).
    by exists s'.
  - intros data. split; [apply before_crlf_first_segment|].
    intros pre Hpre. eapply first_segment_unique; [done|].
    apply before_crlf_first_segment.
Qed.

(** ** Examples *)

Lemma wf_connected ls : wf (self (connected ls)).
Proof.
  unfold connected.
  generalize (wf_connect fresh server_up "irc.example.org" 6667 10 wf_init).
  generalize (snd (connect server_up "irc.example.org" 6667 10 fresh)).
  induction ls as [|l ls IH]; intros s Hwf; [done|].
  cbn [for_each]. unfold bind. simpl. by apply IH.
Qed.

Lemma keeper_never_raises : never_raises keeper.
Proof. intros obj a. split; [by exists true|done]. Qed.

Lemma deaf_never_raises : never_raises deaf.
Proof. intros obj a. split; [by exists false|done]. Qed.

(** C1: the read [A CRLF B CRLF C CRLF] holds three segments, which [split]
    finds (with an empty last piece), and the loop dispatches one message,
    [A]: [B] and [C] are not dispatched, and the listener gets [A] only. *)
Theorem C1_three_segments_one_dispatch :
  split (b "A" ++ CRLF ++ b "B" ++ CRLF ++ b "C" ++ CRLF) CRLF
    = [b "A"; b "B"; b "C"; []] /\
  dispatched
    (trace (snd (__listen _process_data example_heap 4096
                   [Returned (b "A" ++ CRLF ++ b "B" ++ CRLF ++ b "C" ++ CRLF)]
                   (connected [1%positive])))) = [b "A"] /\
  dispatched
    (trace (snd (__listen _process_data example_heap 4096
                   [Returned (b "A" ++ CRLF ++ b "B" ++ CRLF ++ b "C" ++ CRLF)]
                   (connected [1%positive])))) <> [b "A"; b "B"; b "C"] /\
  app (snd (__listen _process_data example_heap 4096
              [Returned (b "A" ++ CRLF ++ b "B" ++ CRLF ++ b "C" ++ CRLF)]
              (connected [1%positive]))) = [b "A"].
Proof. by vm_compute. Qed.

(** C4, as the claim has it, fails.  The listeners are iterated in the
    order 3, 2, 1, and listener 2 raises in [accept] for the first message:
    listener 1, which is in the set and accepts every message, is never
    called, the second read is never dispatched, and the exception leaves
    [__listen]. *)
Lemma C4_faulty_listener_stops_loop :
  fst faulty_run = Raised boom /\
  trace (snd faulty_run) =
    [EvDispatch (b "A");
     EvAccept 3%positive (b "A") (Returned true);
     EvReceive 3%positive (b "A") (Returned tt);
     EvAccept 2%positive (b "A") (Raised boom)] /\
  elements (__listeners (self (connected [1%positive; 2%positive; 3%positive])))
    = [3%positive; 2%positive; 1%positive] /\
  fst (accept (example_heap 1%positive) (b "A") []) = Returned true /\
  count (is_accept 1%positive) (trace (snd faulty_run)) = 0%nat /\
  dispatched (trace (snd faulty_run)) = [b "A"].
Proof. by vm_compute. Qed.

(** C3, as the claim has it, fails.  Listener 1 is in the set and its
    [accept] returns [True] for the message in every state of the
    application; the listeners are iterated in the order 3, 2, 1 and
    listener 2 raises in [accept]: the dispatch ends there, and neither
    [accept] nor [receive] of listener 1 is called. *)
Lemma C3_registered_listener_skipped :
  elements (__listeners (self (connected [1%positive; 2%positive; 3%positive])))
    = [3%positive; 2%positive; 1%positive] /\
  (forall a, accept (example_heap 1%positive) (b "A") a = (Returned true, a)) /\
  fst (__dispatch_listeners example_heap (b "A")
         (connected [1%positive; 2%positive; 3%positive])) = Raised boom /\
  trace (snd (__dispatch_listeners example_heap (b "A")
                (connected [1%positive; 2%positive; 3%positive]))) =
    [EvDispatch (b "A");
     EvAccept 3%positive (b "A") (Returned true);
     EvReceive 3%positive (b "A") (Returned tt);
     EvAccept 2%positive (b "A") (Raised boom)] /\
  count (is_receive 1%positive)
    (trace (snd (__dispatch_listeners example_heap (b "A")
                   (connected [1%positive; 2%positive; 3%positive])))) = 0%nat /\
  app (snd (__dispatch_listeners example_heap (b "A")
              (connected [1%positive; 2%positive; 3%positive]))) = [b "A"].
Proof. repeat split; by vm_compute. Qed.


(** *** The theorems at concrete inputs *)

Lemma C2_reads_example :
  exists s',
    __listen _process_data example_heap 4096
      (Returned <$> [b "A" ++ CRLF ++ b "B" ++ CRLF; b "AB"; b "C" ++ CRLF])
      (connected [1%positive; 4%positive]) = (Returned LoopBlocked, s') /\
    dispatched (trace s') = [b "A"; b "AB"; b "C"] /\
    self s' = self (connected [1%positive; 4%positive]).
Proof.
  destruct (proj1 (proj2 (proj2 C2_one_message_per_read)) (list bytes) example_heap 4096
              [b "A" ++ CRLF ++ b "B" ++ CRLF; b "AB"; b "C" ++ CRLF]
              (connected [1%positive; 4%positive]))
    as (s' & Hrun & Hdisp & Hself).
  - apply wf_connected.
  - reflexivity.
  - intros l Hl. apply elem_of_elements in Hl. vm_compute in Hl.
    apply elem_of_cons in Hl as [-> | Hl]; [apply deaf_never_raises|].
    apply elem_of_cons in Hl as [-> | Hl]; [apply keeper_never_raises|].
    by apply elem_of_nil in Hl.
  - by repeat constructor.
  - exists s'. split; [exact Hrun|]. split; [exact Hdisp|exact Hself].
Defined.

Lemma C3_dispatch_example :
  __dispatch_listeners example_heap (b "A") (connected [1%positive; 4%positive]) =
    (Returned tt,
     mkState (self (connected [1%positive; 4%positive])) [b "A"]
       [EvDispatch (b "A");
        EvAccept 4%positive (b "A") (Returned false);
        EvAccept 1%positive (b "A") (Returned true);
        EvReceive 1%positive (b "A") (Returned tt)]
       []).
Proof.
  rewrite (proj1 (C3_dispatch_contract example_heap (b "A")
                    (connected [1%positive; 4%positive]))).
  reflexivity.
Defined.

Lemma C4_exception_example :
  exists s',
    __listen _process_data example_heap 4096
      [Returned (b "A" ++ CRLF); Returned (b "B" ++ CRLF)]
      (connected [1%positive; 2%positive; 3%positive]) = (Raised boom, s') /\
    __is_connection_alive (self s') = true /\
    dispatched (trace s') = [b "A"] /\
    count (is_accept 1%positive) (trace s') = 0%nat.
Proof.
  destruct (C4_listener_exception_ends_loop _process_data example_heap 4096
              (b "A" ++ CRLF) [Returned (b "B" ++ CRLF)]
              (connected [1%positive; 2%positive; 3%positive])
              [3%positive] 2%positive [1%positive] boom)
    as (s' & calls & _ & Hrun & Halive & Htr & _ & Hdisp & Hpost).
  - apply wf_connected.
  - reflexivity.
  - discriminate.
  - reflexivity.
  - reflexivity.
  - by left.
  - exists s'. split; [exact Hrun|]. split; [exact Halive|]. split; [exact Hdisp|].
    rewrite Htr. apply (Hpost 1%positive). apply list_elem_of_here.
Defined.

Lemma C5_noop_example :
  connect server_up "irc.example.org" 6667 10 (connected [1%positive])
    = (Returned false, connected [1%positive]) /\
  disconnect fresh = (Returned false, fresh).
Proof.
  split.
  - apply (proj1 (C5_double_connect_disconnect_noop (connected [1%positive]) server_up
                    "irc.example.org" 6667 10)).
    reflexivity.
  - apply (proj2 (C5_double_connect_disconnect_noop fresh server_up
                    "irc.example.org" 6667 10)).
    reflexivity.
Defined.

Lemma C6_refused_example :
  exists s',
    connect server_down "irc.example.org" 6667 10 fresh = (Returned false, s') /\
    __is_connection_alive (self s') = false /\
    stdout s' = ["Caught exception socket.error : [Errno 111] Connection refused"].
Proof.
  destruct (C6_connect_failure fresh server_down "irc.example.org" 6667 10 refused)
    as (s' & Hrun & Halive & _ & Hout & _).
  - reflexivity.
  - reflexivity.
  - right. split; [reflexivity|]. split; [lia|reflexivity].
  - exists s'. split; [exact Hrun|]. split; [exact Halive|exact Hout].
Defined.

Lemma C7_disconnect_example :
  exists sk,
    __socket (self (connected [1%positive])) = Some sk /\
    fst (disconnect (connected [1%positive])) = Returned true /\
    __is_connection_alive (self (snd (disconnect (connected [1%positive])))) = false /\
    __socket (self (snd (disconnect (connected [1%positive])))) = Some (snd (close sk)).
Proof.
  destruct (C7_disconnect_alive (connected [1%positive])) as (sk & Hsk & _ & Hrun).
  - apply wf_connected.
  - reflexivity.
  - exists sk. rewrite Hrun. split; [exact Hsk|]. by repeat split.
Defined.


Lemma C9_empty_read_example :
  exists s',
    __listen _process_data example_heap 4096 [Returned []; Returned (b "late" ++ CRLF)]
      (connected [1%positive]) = (Returned LoopExit, s') /\
    __is_connection_alive (self s') = false /\
    trace s' = [].
Proof.
  destruct (C9_empty_read_ends_loop _process_data example_heap 4096
              [Returned (b "late" ++ CRLF)] (connected [1%positive]))
    as (s' & Hrun & Halive & _ & _ & _ & _ & Htrace & _).
  - apply wf_connected.
  - reflexivity.
  - exists s'. split; [exact Hrun|]. split; [exact Halive|exact Htrace].
Defined.

Lemma C10_remove_missing_example :
  exists e,
    remove_listener 7%positive (connected [1%positive]) = (Raised e, connected [1%positive]) /\
    exn_type e = KeyError.
Proof.
  apply (C10_remove_missing_listener_raises (connected [1%positive]) 7%positive).
  by apply (bool_decide_unpack _).
Defined.

(** ** Further properties of the methods *)

(** Facts about sets of references. *)
Section SetFacts.

Implicit Types (X : gset ref) (l : ref).

Lemma union_singleton_in X l : l ∈ X -> X ∪ {[l]} = X.
Proof.
  intros Hin. apply set_eq. intros x. rewrite elem_of_union, elem_of_singleton.
  split; [intros [?| ->]; done|by left].
Qed.

Lemma union_singleton_twice X l : X ∪ {[l]} ∪ {[l]} = X ∪ {[l]}.
Proof.
  apply union_singleton_in. rewrite elem_of_union, elem_of_singleton. by right.
Qed.

Lemma union_singleton_swap X l1 l2 : X ∪ {[l2]} ∪ {[l1]} = X ∪ {[l1]} ∪ {[l2]}.
Proof.
  apply set_eq. intros x. rewrite !elem_of_union, !elem_of_singleton. tauto.
Qed.

Lemma union_difference_singleton X l : l ∉ X -> (X ∪ {[l]}) ∖ {[l]} = X.
Proof.
  intros Hnotin. apply set_eq. intros x.
  rewrite elem_of_difference, elem_of_union, elem_of_singleton.
  split; [tauto|]. intros Hx. split; [by left|]. by intros ->.
Qed.

Lemma difference_union_singleton X l : l ∈ X -> X ∖ {[l]} ∪ {[l]} = X.
Proof.
  intros Hin. apply set_eq. intros x.
  rewrite elem_of_union, elem_of_difference, elem_of_singleton.
  destruct (decide (x = l)) as [->|]; tauto.
Qed.

Lemma elem_of_cons_ne (ls : list ref) l l0 : l0 <> l -> l ∈ l0 :: ls <-> l ∈ ls.
Proof.
  intros Hne. rewrite elem_of_cons. split; [|by right].
  intros [->|?]; [congruence|done].
Qed.

End SetFacts.

Section Coverage.

Context {Msg App : Type}.
Variable process_data : bytes -> Msg.
Variable heap : ref -> MessageListener Msg App.

Implicit Types (s : State Msg App) (c : Connection) (sk : Socket).

(** *** The life of a Connection *)

Lemma disconnect_alive s sk :
  __is_connection_alive (self s) = true ->
  __socket (self s) = Some sk ->
  disconnect s =
    (Returned true,
     with_self (mkConnection (Some (snd (close sk))) false
                  (__listen_thread (self s)) (__listeners (self s))) s).
Proof.
  intros Halive Hsk. unfold disconnect, bind, get_self. rewrite Halive.
  by rewrite (socket_call_some _ _ _ sk Hsk).
Qed.

Lemma connect_caught s net ip_address port timeout e :
  __is_connection_alive (self s) = false ->
  is_socket_error e = true ->
  net_socket net = Some e \/
  (net_socket net = None /\ 0 <= timeout /\ net_connect net ip_address port = Some e) ->
  fst (connect net ip_address port timeout s) = Returned false /\
  __is_connection_alive (self (snd (connect net ip_address port timeout s))) = false /\
  __listeners (self (snd (connect net ip_address port timeout s))) = __listeners (self s).
Proof.
  intros Halive Hsock Hfail.
  unfold connect, bind, get_self, try_except_socket_error. rewrite Halive. simpl.
  destruct Hfail as [Hnew | (Hnew & Ht & Hconn)].
  - unfold socket_socket. rewrite Hnew. unfold raise. by rewrite Hsock.
  - unfold socket_socket. rewrite Hnew. simpl.
    unfold socket_call, bind, get_self. simpl.
    unfold settimeout. destruct (Z.ltb_spec timeout 0) as [|_]; [lia|]. simpl.
    unfold sock_connect. simpl. rewrite Hconn. simpl. by rewrite Hsock.
Qed.

(** X1: [connect] on a Connection that is not alive, with a timeout from 0
    to [timeout_max], when making the socket, connecting it and starting the
    thread all work: it returns [True]; the
    Connection is alive; it holds a new, open socket with the timeout and the
    peer set and nothing sent; the thread is started; the listeners are as
    before and nothing is printed. *)
Theorem X1_connect_success s net ip_address port timeout :
  __is_connection_alive (self s) = false ->
  network_ok net ip_address port ->
  0 <= timeout <= timeout_max ->
  exists s',
    connect net ip_address port timeout s = (Returned true, s') /\
    fst (is_connection_alive s') = Returned true /\
    __socket (self s') =
      Some (mkSocket (Some timeout) (Some (ip_address, port)) false []) /\
    __listen_thread (self s') = Some (mkThread true) /\
    __listeners (self s') = __listeners (self s) /\
    app s' = app s /\ trace s' = trace s /\ stdout s' = stdout s.
Proof.
  intros Halive (Hnew & Hconn & Hstart) [Ht _].
  eexists. split; [by apply connect_success|]. done.
Qed.

(** X2: an exception of the [try] block of [connect] that is not a socket
    error is not caught: [connect] raises it and prints nothing.  When it
    comes from making or connecting the socket the Connection stays not
    alive; when it comes from starting the thread the alive flag is already
    set and stays set, although no thread runs. *)
Theorem X2_connect_other_exception s net ip_address port timeout e :
  __is_connection_alive (self s) = false ->
  is_socket_error e = false ->
  0 <= timeout ->
  (net_socket net = Some e ->
   connect net ip_address port timeout s = (Raised e, s)) /\
  (net_socket net = None -> net_connect net ip_address port = Some e ->
   exists s',
     connect net ip_address port timeout s = (Raised e, s') /\
     __is_connection_alive (self s') = false /\
     stdout s' = stdout s) /\
  (net_socket net = None -> net_connect net ip_address port = None ->
   net_thread_start net = Some e ->
   exists s',
     connect net ip_address port timeout s = (Raised e, s') /\
     __is_connection_alive (self s') = true /\
     __listen_thread (self s') = Some (mkThread false) /\
     stdout s' = stdout s).
Proof.
  intros Halive Hother Ht.
  unfold connect, bind, get_self, try_except_socket_error. rewrite Halive. simpl.
  unfold socket_socket.
  split; [|split].
  - intros ->. unfold raise. by rewrite Hother.
  - intros -> Hconn. simpl. unfold socket_call, bind, get_self. simpl.
    unfold settimeout. destruct (Z.ltb_spec timeout 0) as [|_]; [lia|]. simpl.
    unfold sock_connect. simpl. rewrite Hconn. simpl. rewrite Hother.
    eexists. split; [reflexivity|]. done.
  - intros -> Hconn Hstart. simpl. unfold socket_call, bind, get_self. simpl.
    unfold settimeout. destruct (Z.ltb_spec timeout 0) as [|_]; [lia|]. simpl.
    unfold sock_connect. simpl. rewrite Hconn. simpl.
    unfold thread_start. rewrite Hstart. unfold raise. rewrite Hother.
    eexists. split; [reflexivity|]. done.
Qed.

(** X3: a failed [connect] does not stand in the way of the next one: after
    a [connect] that a socket error made return [False], a [connect] on a
    network that works, with a timeout from 0 to [timeout_max], returns
    [True] and the Connection is alive, with the listeners it had. *)
Theorem X3_connect_again_after_failure s net ip_address port timeout e
    net' ip_address' port' timeout' :
  __is_connection_alive (self s) = false ->
  is_socket_error e = true ->
  net_socket net = Some e \/
  (net_socket net = None /\ 0 <= timeout /\ net_connect net ip_address port = Some e) ->
  network_ok net' ip_address' port' ->
  0 <= timeout' <= timeout_max ->
  exists s',
    connect net' ip_address' port' timeout'
      (snd (connect net ip_address port timeout s)) = (Returned true, s') /\
    __is_connection_alive (self s') = true /\
    __socket (self s') =
      Some (mkSocket (Some timeout') (Some (ip_address', port')) false []) /\
    __listeners (self s') = __listeners (self s).
Proof.
  intros Halive Hsock Hfail (Hnew & Hconn & Hstart) [Ht _].
  destruct (connect_caught s net ip_address port timeout e Halive Hsock Hfail)
    as (_ & Halive1 & Hls1).
  eexists. split; [by apply connect_success|]. simpl. by rewrite Hls1.
Qed.

(** X4: [disconnect] and then [connect] on a network that works, with a
    timeout from 0 to [timeout_max]: the Connection is alive again, with a new socket on which nothing was sent
    (the closed one is dropped) and with the listeners it had. *)
Theorem X4_reconnect_after_disconnect s net ip_address port timeout :
  wf (self s) ->
  __is_connection_alive (self s) = true ->
  network_ok net ip_address port ->
  0 <= timeout <= timeout_max ->
  exists s',
    fst (disconnect s) = Returned true /\
    connect net ip_address port timeout (snd (disconnect s)) = (Returned true, s') /\
    __is_connection_alive (self s') = true /\
    __socket (self s') =
      Some (mkSocket (Some timeout) (Some (ip_address, port)) false []) /\
    __listeners (self s') = __listeners (self s) /\
    wf (self s').
Proof.
  intros Hwf Halive (Hnew & Hconn & Hstart) [Ht _].
  destruct (Hwf Halive) as (sk & Hsk & _).
  rewrite (disconnect_alive s sk Halive Hsk). simpl.
  eexists. split; [done|]. split; [by apply connect_success|].
  simpl. repeat split; try done. intros _. eexists. by repeat split.
Qed.

(** X5: [disconnect] twice: the second call returns [False] and changes
    nothing, and [__listen] on the disconnected Connection returns at once,
    without reading its input or dispatching. *)
Theorem X5_after_disconnect s buffer_size inputs :
  wf (self s) ->
  __is_connection_alive (self s) = true ->
  fst (disconnect s) = Returned true /\
  disconnect (snd (disconnect s)) = (Returned false, snd (disconnect s)) /\
  __listen process_data heap buffer_size inputs (snd (disconnect s)) =
    (Returned LoopExit, snd (disconnect s)).
Proof.
  intros Hwf Halive. destruct (Hwf Halive) as (sk & Hsk & _).
  rewrite (disconnect_alive s sk Halive Hsk). simpl.
  split; [done|]. split; [done|]. by apply listen_not_alive.
Qed.

(** *** Sending *)

Lemma socket_call_same {A} method (f : Socket -> outcome A * Socket) s sk :
  __socket (self s) = Some sk ->
  snd (f sk) = sk ->
  socket_call method f s = (fst (f sk), s).
Proof.
  intros Hsk Hsame. rewrite (socket_call_some _ _ _ sk Hsk), Hsame.
  by rewrite (set___socket_id _ _ Hsk), with_self_id.
Qed.

(** X6: sending on a Connection that has no socket (it never got to
    [connect]) raises [AttributeError] and changes nothing: [send_data] for
    any bytes, and [send] for any message that UTF-8 encodes. *)
Theorem X6_send_without_socket s :
  __socket (self s) = None ->
  (forall data, exists e,
     send_data data s = (Raised e, s) /\ exn_type e = AttributeError) /\
  (forall message crlf_ending b, utf8 message = Some b -> exists e,
     send message crlf_ending s = (Raised e, s) /\ exn_type e = AttributeError).
Proof.
  intros Hsk. split.
  - intros data. by apply socket_call_none.
  - intros message crlf_ending b Hb. unfold send, bind, lift, bytes_utf8.
    destruct (crlf_ending && negb (endswith message crlf)).
    + rewrite (utf8_crlf _ _ Hb). by apply socket_call_none.
    + rewrite Hb. by apply socket_call_none.
Qed.

(** X7: sending after [disconnect] raises the [OSError] of the closed
    socket; nothing is added to what the socket sent and the state is as
    [disconnect] left it. *)
Theorem X7_send_after_disconnect s :
  wf (self s) ->
  __is_connection_alive (self s) = true ->
  (forall data,
     send_data data (snd (disconnect s)) = (Raised bad_file_descriptor, snd (disconnect s))) /\
  (forall message crlf_ending b, utf8 message = Some b ->
     send message crlf_ending (snd (disconnect s)) =
       (Raised bad_file_descriptor, snd (disconnect s))) /\
  is_socket_error bad_file_descriptor = true.
Proof.
  intros Hwf Halive. destruct (Hwf Halive) as (sk & Hsk & _).
  rewrite (disconnect_alive s sk Halive Hsk). simpl.
  assert (forall data,
    send_data data (with_self (mkConnection (Some (snd (close sk))) false
                                 (__listen_thread (self s)) (__listeners (self s))) s)
    = (Raised bad_file_descriptor,
       with_self (mkConnection (Some (snd (close sk))) false
                    (__listen_thread (self s)) (__listeners (self s))) s)) as Hsend.
  { intros data. unfold send_data.
    by rewrite (socket_call_same _ _ _ (snd (close sk))). }
  split; [done|]. split; [|done].
  intros message crlf_ending b Hb. unfold send, bind, lift, bytes_utf8.
  destruct (crlf_ending && negb (endswith message crlf)).
  - rewrite (utf8_crlf _ _ Hb). apply Hsend.
  - rewrite Hb. apply Hsend.
Qed.




(** X10: a message with a surrogate code point has no UTF-8 bytes: [send]
    raises [UnicodeEncodeError] before it gets to the socket, in any state
    and for either value of [crlf_ending], and nothing is sent. *)
Theorem X10_send_surrogate (before after : str) (c : N) crlf_ending s :
  is_surrogate c ->
  exists e,
    send (before ++ c :: after) crlf_ending s = (Raised e, s) /\
    exn_type e = UnicodeEncodeError.
Proof.
  intros Hc. apply send_unencodable. by apply utf8_surrogate.
Qed.

(** *** The listener set *)

Lemma set___listeners_id c : set___listeners (__listeners c) c = c.
Proof. by destruct c. Qed.

Lemma add_listener_state listener s :
  add_listener listener s =
    (Returned tt,
     with_self (set___listeners (__listeners (self s) ∪ {[listener]}) (self s)) s).
Proof. done. Qed.

Lemma remove_listener_present listener s :
  listener ∈ __listeners (self s) ->
  remove_listener listener s =
    (Returned tt,
     with_self (set___listeners (__listeners (self s) ∖ {[listener]}) (self s)) s).
Proof.
  intros Hin. unfold remove_listener, bind, get_self.
  by rewrite bool_decide_eq_true_2.
Qed.

(** X11: [add_listener] keeps a set: adding a listener that is in the set
    changes nothing, so adding twice is adding once, and the order of two
    additions does not matter.  It never raises. *)
Theorem X11_add_listener_set l1 l2 s :
  fst (add_listener l1 s) = Returned tt /\
  l1 ∈ __listeners (self (snd (add_listener l1 s))) /\
  (l1 ∈ __listeners (self s) -> snd (add_listener l1 s) = s) /\
  snd (add_listener l1 (snd (add_listener l1 s))) = snd (add_listener l1 s) /\
  snd (add_listener l1 (snd (add_listener l2 s))) =
    snd (add_listener l2 (snd (add_listener l1 s))).
Proof.
  rewrite !add_listener_state. simpl.
  split; [done|]. split; [|split; [|split]].
  - rewrite elem_of_union, elem_of_singleton. by right.
  - intros Hin. rewrite (union_singleton_in _ _ Hin).
    by rewrite set___listeners_id, with_self_id.
  - unfold with_self, set___listeners. simpl. by rewrite union_singleton_twice.
  - unfold with_self, set___listeners. simpl. by rewrite union_singleton_swap.
Qed.

(** X12: [add_listener] and then [remove_listener] of a listener that was
    not in the set gives back the state; so does [remove_listener] and then
    [add_listener] of one that was in it.  Neither call raises. *)
Theorem X12_add_remove_round_trip listener s :
  (listener ∉ __listeners (self s) ->
   remove_listener listener (snd (add_listener listener s)) = (Returned tt, s)) /\
  (listener ∈ __listeners (self s) ->
   fst (remove_listener listener s) = Returned tt /\
   add_listener listener (snd (remove_listener listener s)) = (Returned tt, s)).
Proof.
  split.
  - intros Hnotin. rewrite add_listener_state. simpl.
    rewrite remove_listener_present
      by (simpl; rewrite elem_of_union, elem_of_singleton; by right).
    unfold with_self, set___listeners. simpl.
    rewrite (union_difference_singleton _ _ Hnotin).
    by destruct s as [[sock alive thread ls] a tr out].
  - intros Hin. rewrite remove_listener_present by done. simpl.
    split; [done|]. rewrite add_listener_state. simpl.
    unfold with_self, set___listeners. simpl.
    rewrite (difference_union_singleton _ _ Hin).
    by destruct s as [[sock alive thread ls] a tr out].
Qed.

(** *** The receive loop, from any state *)

(** [recv] leaves the state as it is; what it returns is the input, unless
    the socket is missing or closed. *)
Lemma recv_state buffer_size input s :
  snd (socket_call "recv" (recv buffer_size input) s) = s /\
  forall data,
    fst (socket_call "recv" (recv buffer_size input) s) = Returned data ->
    input = Returned data.
Proof.
  destruct (__socket (self s)) as [sk|] eqn:Hsk.
  - rewrite (socket_call_same _ _ _ sk Hsk); [|unfold recv; by destruct (sock_closed sk)].
    split; [done|]. simpl. unfold recv. by destruct (sock_closed sk).
  - destruct (socket_call_none "recv" (recv buffer_size input) s Hsk) as (e & -> & _).
    done.
Qed.

Lemma listen_unfold buffer_size input inputs s :
  __listen process_data heap buffer_size (input :: inputs) s =
    if __is_connection_alive (self s) then
      match fst (socket_call "recv" (recv buffer_size input) s) with
      | Returned (x :: data) =>
          match __dispatch_listeners heap (process_data (before_crlf (x :: data))) s with
          | (Returned _, s1) => __listen process_data heap buffer_size inputs s1
          | (Raised e, s1) => (Raised e, s1)
          end
      | Returned [] =>
          (Returned LoopExit, with_self (set___is_connection_alive false (self s)) s)
      | Raised e => (Raised e, s)
      end
    else (Returned LoopExit, s).
Proof.
  cbn [__listen]. unfold bind at 1, get_self.
  destruct (__is_connection_alive (self s)) eqn:Halive; [|done].
  unfold bind at 1.
  destruct (recv_state buffer_size input s) as [Hstate _].
  destruct (socket_call "recv" (recv buffer_size input) s) as [r s0]. simpl in *. subst s0.
  destruct r as [[|x data]|e]; [| |done].
  - unfold bind at 1. simpl. by rewrite listen_not_alive.
  - rewrite take_1_split. unfold bind at 1. cbn [for_each]. unfold bind at 1.
    destruct (__dispatch_listeners heap _ s) as [[[]|e] s1]; [|done].
    by unfold ret.
Qed.

Lemma listen_nil buffer_size s :
  snd (__listen process_data heap buffer_size [] s) = s.
Proof.
  simpl. unfold bind, get_self. by destruct (__is_connection_alive (self s)).
Qed.

(** A listener that is not in the set is not called by the loop. *)
Lemma listen_calls_absent buffer_size inputs s l :
  l ∉ __listeners (self s) ->
  exists evs,
    trace (snd (__listen process_data heap buffer_size inputs s)) = trace s ++ evs /\
    calls_on l evs = 0%nat.
Proof.
  revert s. induction inputs as [|input inputs IH]; intros s Hnotin.
  { exists []. by rewrite listen_nil, app_nil_r. }
  rewrite listen_unfold.
  destruct (__is_connection_alive (self s)); [|exists []; by rewrite app_nil_r].
  destruct (fst (socket_call "recv" (recv buffer_size input) s)) as [[|x data]|e];
    [exists []; simpl; by rewrite app_nil_r| |exists []; by rewrite app_nil_r].
  destruct (dispatch_spec heap (process_data (before_crlf (x :: data))) s)
    as (evs & Hp & Htr & Hself & _).
  assert (calls_on l (EvDispatch (process_data (before_crlf (x :: data))) :: evs) = 0%nat)
    as Hzero.
  { unfold calls_on. simpl.
    destruct (pass_events_receive_accepted _ _ _ _ l Hp) as [-> Hle].
    assert (count (is_accept l) evs = 0%nat) as Hacc; [|lia].
    eapply pass_events_absent; [done|]. by rewrite elem_of_elements. }
  destruct (__dispatch_listeners heap _ s) as [[[]|e] s1]; simpl in Htr, Hself.
  - destruct (IH s1) as (evs' & Htr' & Hzero'); [by rewrite Hself|].
    exists ((EvDispatch (process_data (before_crlf (x :: data))) :: evs) ++ evs').
    split; [by rewrite Htr', Htr, <- app_assoc|].
    unfold calls_on in *. rewrite !count_app. lia.
  - by eexists.
Qed.

(** X14: [remove_listener] of a listener that is in the set returns; the
    listener is out of the set and the other listeners are kept; and in any
    run of the receive loop after it, whatever the input, no [accept] and no
    [receive] of that listener is called. *)
Theorem X14_removed_listener_not_called buffer_size inputs s l :
  l ∈ __listeners (self s) ->
  exists s1,
    remove_listener l s = (Returned tt, s1) /\
    (l ∉ __listeners (self s1)) /\
    (forall l', l' <> l -> (l' ∈ __listeners (self s1) <-> l' ∈ __listeners (self s))) /\
    exists evs,
      trace (snd (__listen process_data heap buffer_size inputs s1)) = trace s1 ++ evs /\
      count (is_accept l) evs = 0%nat /\
      count (is_receive l) evs = 0%nat.
Proof.
  intros Hin. rewrite remove_listener_present by done.
  eexists. split; [done|]. simpl.
  assert (l ∉ __listeners (self s) ∖ {[l]}) as Hout.
  { rewrite elem_of_difference, elem_of_singleton. tauto. }
  split; [done|]. split.
  - intros l' Hne. rewrite elem_of_difference, elem_of_singleton. tauto.
  - match goal with |- context [__listen _ _ _ _ ?s1] =>
      destruct (listen_calls_absent buffer_size inputs s1 l Hout) as (evs & Htr & Hzero)
    end.
    exists evs. split; [done|]. unfold calls_on in Hzero. lia.
Qed.

(** *** The receive loop with listeners that never raise *)

Lemma dispatch_quiet_step obj s :
  (forall l, l ∈ __listeners (self s) -> never_raises (heap l)) ->
  exists s1,
    __dispatch_listeners heap obj s = (Returned tt, s1) /\
    self s1 = self s /\
    dispatched (trace s1) = dispatched (trace s) ++ [obj].
Proof.
  intros Hquiet. pose proof (dispatch_returns heap obj s Hquiet) as Hret.
  destruct (dispatch_spec heap obj s) as (evs & Hp & Htr & Hself & _).
  destruct (__dispatch_listeners heap obj s) as [r s1]. simpl in *. subst r.
  exists s1. split; [done|]. split; [done|].
  rewrite Htr, dispatched_app. cbn [dispatched omap list_omap]. fold (dispatched evs).
  by rewrite (pass_events_not_dispatch _ _ _ _ Hp).
Qed.

Lemma listen_quiet buffer_size inputs s :
  wf (self s) ->
  __is_connection_alive (self s) = true ->
  (forall l, l ∈ __listeners (self s) -> never_raises (heap l)) ->
  exists s',
    __listen process_data heap buffer_size inputs s = (loop_outcome inputs, s') /\
    dispatched (trace s') =
      dispatched (trace s) ++
      ((fun data => process_data (before_crlf data)) <$> live_reads inputs) /\
    __is_connection_alive (self s') =
      (if loop_outcome inputs is Returned LoopExit then false else true).
Proof.
  revert s. induction inputs as [|[[|x data]|e] inputs IH]; intros s Hwf Halive Hquiet.
  - exists s. rewrite listen_no_input by done. simpl. by rewrite app_nil_r.
  - rewrite listen_empty_read by done. eexists. split; [done|]. simpl.
    by rewrite app_nil_r.
  - rewrite listen_data_read by done.
    destruct (dispatch_quiet_step (process_data (before_crlf (x :: data))) s Hquiet)
      as (s1 & -> & Hself & Hdisp).
    destruct (IH s1) as (s' & Hrun & Hdisp' & Halive'); [by rewrite Hself..|].
    exists s'. split; [done|]. split; [|done].
    rewrite Hdisp', Hdisp. cbn [live_reads fmap list_fmap]. by rewrite <- app_assoc.
  - rewrite listen_recv_raises by done. exists s. simpl. by rewrite app_nil_r.
Qed.

(** X15: the receive loop as a whole, on a Connection that is alive, with
    listeners whose callbacks never raise and act on the state of the
    application only (they call no method of the Connection).  It dispatches the decoded first piece of each
    read that holds bytes, in order, up to the first read that is empty or
    raises, and reads nothing after that one.  It ends by returning with the
    flag cleared at an empty read, with the exception of [recv] and the flag
    still set when [recv] raises, and it waits, alive, when the input runs
    out. *)
Theorem X15_listen_whole_run buffer_size inputs s :
  wf (self s) ->
  __is_connection_alive (self s) = true ->
  (forall l, l ∈ __listeners (self s) -> never_raises (heap l)) ->
  exists s',
    __listen process_data heap buffer_size inputs s = (loop_outcome inputs, s') /\
    dispatched (trace s') =
      dispatched (trace s) ++
      ((fun data => process_data (before_crlf data)) <$> live_reads inputs) /\
    __is_connection_alive (self s') =
      (if loop_outcome inputs is Returned LoopExit then false else true) /\
    (forall more, live_reads (inputs ++ Returned [] :: more) = live_reads inputs) /\
    (forall e more, live_reads (inputs ++ Raised e :: more) = live_reads inputs).
Proof.
  intros Hwf Halive Hquiet.
  destruct (listen_quiet buffer_size inputs s Hwf Halive Hquiet) as (s' & Hrun & Hdisp & Hflag).
  exists s'. repeat split; try done.
  - intros more. clear. induction inputs as [|[[|x data]|e] inputs IH]; simpl; congruence.
  - intros e more. clear. induction inputs as [|[[|x data]|e'] inputs IH]; simpl; congruence.
Qed.

(** X16: an exception of [recv] (a timeout, a reset) is not caught by the
    loop: [__listen] ends with it at once, reads no further input,
    dispatches nothing, and leaves the state as it was, so that the
    Connection still answers that it is alive. *)
Theorem X16_recv_exception_ends_loop buffer_size e inputs s :
  wf (self s) ->
  __is_connection_alive (self s) = true ->
  __listen process_data heap buffer_size (Raised e :: inputs) s = (Raised e, s) /\
  fst (is_connection_alive (snd (__listen process_data heap buffer_size
                                   (Raised e :: inputs) s))) = Returned true.
Proof.
  intros Hwf Halive. rewrite listen_recv_raises by done. split; [done|].
  simpl. by rewrite Halive.
Qed.

(** *** The receive loop with any listeners *)

Lemma before_crlf_no_crlf (data : bytes) : ~ occurs_in CRLF (before_crlf data).
Proof.
  destruct (before_crlf_first_segment data) as [[Heq Hno] | (post & _ & Hno)].
  - by rewrite <- Heq.
  - intros (before & after & Heq). apply Hno.
    exists before, (after ++ [CR]). by rewrite Heq, <- !app_assoc.
Qed.

Lemma listen_dispatched_prefix buffer_size inputs s :
  exists k,
    dispatched (trace (snd (__listen process_data heap buffer_size inputs s))) =
      dispatched (trace s) ++
      ((fun data => process_data (before_crlf data)) <$> take k (live_reads inputs)).
Proof.
  revert s. induction inputs as [|input inputs IH]; intros s.
  { exists 0%nat. by rewrite listen_nil, app_nil_r. }
  rewrite listen_unfold.
  destruct (__is_connection_alive (self s)); [|exists 0%nat; by rewrite app_nil_r].
  destruct (recv_state buffer_size input s) as [_ Hinput].
  destruct (fst (socket_call "recv" (recv buffer_size input) s)) as [[|x data]|e];
    [exists 0%nat; simpl; by rewrite app_nil_r| |exists 0%nat; by rewrite app_nil_r].
  rewrite (Hinput (x :: data) eq_refl).
  destruct (dispatch_spec heap (process_data (before_crlf (x :: data))) s)
    as (evs & Hp & Htr & _).
  assert (dispatched (trace (snd (__dispatch_listeners heap
                                    (process_data (before_crlf (x :: data))) s)))
          = dispatched (trace s) ++ [process_data (before_crlf (x :: data))]) as Hdisp.
  { rewrite Htr, dispatched_app. cbn [dispatched omap list_omap]. fold (dispatched evs).
    by rewrite (pass_events_not_dispatch _ _ _ _ Hp). }
  destruct (__dispatch_listeners heap _ s) as [[[]|e] s1]; simpl in Hdisp.
  - destruct (IH s1) as (k & Hk). exists (S k).
    rewrite Hk, Hdisp. cbn [live_reads take fmap list_fmap]. by rewrite <- app_assoc.
  - exists 1%nat. simpl. rewrite Hdisp. cbn [live_reads take fmap list_fmap].
    by destruct (live_reads inputs).
Qed.

(** X17: whatever the listeners do and whatever state the Connection is in,
    the messages the loop dispatches are the decoded first pieces of the
    first reads that hold bytes, in the order of the reads and one per read;
    none of these pieces holds a CR-LF. *)
Theorem X17_listen_dispatches_first_pieces buffer_size inputs s :
  (exists k,
     dispatched (trace (snd (__listen process_data heap buffer_size inputs s))) =
       dispatched (trace s) ++
       ((fun data => process_data (before_crlf data)) <$> take k (live_reads inputs))) /\
  Forall (fun data => data <> [] /\ ~ occurs_in CRLF (before_crlf data))
    (live_reads inputs).
Proof.
  split; [apply listen_dispatched_prefix|].
  clear. induction inputs as [|[[|x data]|e] inputs IH]; simpl; try done.
  constructor; [|done]. split; [done|apply before_crlf_no_crlf].
Qed.

(** *** What a listener receives *)

Lemma received_by_app (l : ref) (evs1 evs2 : list (event Msg)) :
  received_by l (evs1 ++ evs2) = received_by l evs1 ++ received_by l evs2.
Proof. apply omap_app. Qed.

Lemma for_each_notify_received obj ls s l answer :
  (forall l', l' ∈ ls -> never_raises (heap l')) ->
  NoDup ls ->
  always_answers (heap l) answer ->
  exists s1,
    for_each ls (notify heap obj) s = (Returned tt, s1) /\
    self s1 = self s /\
    dispatched (trace s1) = dispatched (trace s) /\
    received_by l (trace s1) =
      received_by l (trace s) ++ (if answer && bool_decide (l ∈ ls) then [obj] else []).
Proof.
  intros Hquiet Hnodup Hanswer. revert s.
  induction ls as [|l0 ls IH]; intros s.
  { exists s. rewrite andb_false_r. by rewrite app_nil_r. }
  apply NoDup_cons in Hnodup as [Hl0 Hnodup].
  assert (forall l', l' ∈ ls -> never_raises (heap l')) as Hquiet'.
  { intros l' Hl'. apply Hquiet. by apply list_elem_of_further. }
  specialize (IH Hquiet' Hnodup).
  cbn [for_each]. unfold bind. rewrite notify_unfold.
  destruct (Hquiet l0 (list_elem_of_here _ _) obj (app s)) as [[b0 Hacc] _].
  pose proof (Hanswer obj (app s)) as Hl.
  destruct (accept (heap l0) obj (app s)) as [racc a1] eqn:Eacc. simpl in Hacc. subst racc.
  destruct b0.
  - destruct (Hquiet l0 (list_elem_of_here _ _) obj a1) as [_ Hrecv].
    destruct (receive (heap l0) obj a1) as [rrecv a2]. simpl in Hrecv. subst rrecv.
    match goal with |- context [for_each ls _ ?s0] =>
      destruct (IH s0) as (s1 & Hrun & Hself & Hdisp & Hrec) end.
    exists s1. split; [done|]. split; [done|]. simpl in Hdisp, Hrec.
    split.
    + rewrite Hdisp, !dispatched_app. simpl. by rewrite app_nil_r.
    + rewrite Hrec, !received_by_app. simpl.
      destruct (decide (l0 = l)) as [->|Hne].
      * rewrite Eacc in Hl. simpl in Hl. injection Hl as <-.
        rewrite bool_decide_eq_true_2 by done.
        rewrite (bool_decide_eq_true_2 (l ∈ l :: ls)) by apply list_elem_of_here.
        rewrite (bool_decide_eq_false_2 (l ∈ ls)) by done.
        simpl. by rewrite app_nil_r.
      * rewrite (bool_decide_eq_false_2 (l0 = l)) by done. simpl.
        rewrite (bool_decide_ext (l ∈ l0 :: ls) (l ∈ ls)) by by apply elem_of_cons_ne.
        by rewrite app_nil_r.
  - match goal with |- context [for_each ls _ ?s0] =>
      destruct (IH s0) as (s1 & Hrun & Hself & Hdisp & Hrec) end.
    exists s1. split; [done|]. split; [done|]. simpl in Hdisp, Hrec.
    split.
    + rewrite Hdisp, !dispatched_app. simpl. by rewrite app_nil_r.
    + rewrite Hrec, !received_by_app. simpl. rewrite app_nil_r.
      destruct (decide (l0 = l)) as [->|Hne].
      * rewrite Eacc in Hl. simpl in Hl. injection Hl as <-. simpl.
        by rewrite app_nil_r.
      * by rewrite (bool_decide_ext (l ∈ l0 :: ls) (l ∈ ls)) by by apply elem_of_cons_ne.
Qed.

Lemma dispatch_received obj s l answer :
  (forall l', l' ∈ __listeners (self s) -> never_raises (heap l')) ->
  always_answers (heap l) answer ->
  exists s1,
    __dispatch_listeners heap obj s = (Returned tt, s1) /\
    self s1 = self s /\
    received_by l (trace s1) =
      received_by l (trace s) ++
      (if answer && bool_decide (l ∈ __listeners (self s)) then [obj] else []).
Proof.
  intros Hquiet Hanswer. unfold __dispatch_listeners, bind, record, get_self. simpl.
  match goal with |- context [for_each _ _ ?s0] =>
    destruct (for_each_notify_received obj (elements (__listeners (self s))) s0 l answer)
      as (s1 & Hrun & Hself & _ & Hrec) end.
  - intros l' Hl'. apply Hquiet. by rewrite elem_of_elements in Hl'.
  - apply NoDup_elements.
  - done.
  - exists s1. split; [done|]. split; [done|].
    rewrite Hrec. simpl. rewrite received_by_app. simpl. rewrite app_nil_r.
    by rewrite (bool_decide_ext _ _ (elem_of_elements (__listeners (self s)) l)).
Qed.

Lemma listen_received buffer_size inputs s l answer :
  wf (self s) ->
  __is_connection_alive (self s) = true ->
  (forall l', l' ∈ __listeners (self s) -> never_raises (heap l')) ->
  always_answers (heap l) answer ->
  received_by l (trace (snd (__listen process_data heap buffer_size inputs s))) =
    received_by l (trace s) ++
    (if answer && bool_decide (l ∈ __listeners (self s))
     then (fun data => process_data (before_crlf data)) <$> live_reads inputs
     else []).
Proof.
  intros Hwf Halive Hquiet Hanswer. revert s Hwf Halive Hquiet.
  induction inputs as [|[[|x data]|e] inputs IH]; intros s Hwf Halive Hquiet.
  - rewrite listen_no_input by done. simpl.
    destruct (answer && _); by rewrite app_nil_r.
  - rewrite listen_empty_read by done. simpl.
    destruct (answer && _); by rewrite app_nil_r.
  - rewrite listen_data_read by done.
    destruct (dispatch_received (process_data (before_crlf (x :: data))) s l answer
                Hquiet Hanswer) as (s1 & -> & Hself & Hrec).
    rewrite IH by (by rewrite Hself). rewrite Hrec, Hself.
    cbn [live_reads fmap list_fmap].
    destruct (answer && _); simpl; by rewrite <- app_assoc.
  - rewrite listen_recv_raises by done. simpl.
    destruct (answer && _); by rewrite app_nil_r.
Qed.

(** X19: what a listener gets over a whole run of the loop, when the
    callbacks of the listeners never raise and act on the state of the
    application only (they call no method of the Connection).  A listener of the set whose filter accepts every message is given
    the decoded first piece of each read that holds bytes, once each and in
    the order of the reads, up to the first read that is empty or raises.  A
    listener whose filter accepts no message, or that is not in the set, is
    given nothing. *)
Theorem X19_listener_receives buffer_size inputs s l answer :
  wf (self s) ->
  __is_connection_alive (self s) = true ->
  (forall l', l' ∈ __listeners (self s) -> never_raises (heap l')) ->
  always_answers (heap l) answer ->
  (answer = true -> l ∈ __listeners (self s) ->
   received_by l (trace (snd (__listen process_data heap buffer_size inputs s))) =
     received_by l (trace s) ++
     ((fun data => process_data (before_crlf data)) <$> live_reads inputs)) /\
  (answer = false \/ l ∉ __listeners (self s) ->
   received_by l (trace (snd (__listen process_data heap buffer_size inputs s))) =
     received_by l (trace s)).
Proof.
  intros Hwf Halive Hquiet Hanswer.
  rewrite (listen_received buffer_size inputs s l answer Hwf Halive Hquiet Hanswer).
  split.
  - intros -> Hin. by rewrite bool_decide_eq_true_2.
  - intros [-> | Hout]; [by rewrite app_nil_r|].
    rewrite bool_decide_eq_false_2 by done. rewrite andb_false_r. by rewrite app_nil_r.
Qed.

(** *** A new Connection, and the invariant *)

(** X20: a Connection as [__init__] makes it: it is not alive;
    [disconnect] returns [False]; [remove_listener] raises [KeyError] for any
    listener and [send_data] raises [AttributeError] for any bytes;
    [__listen] returns at once on any input; a dispatch calls no listener.
    None of these changes the state, but for the record of the dispatch. *)
Theorem X20_new_connection (a : App) l data buffer_size inputs obj :
  fst (is_connection_alive (new_state a : State Msg App)) = Returned false /\
  disconnect (new_state a : State Msg App) = (Returned false, new_state a) /\
  (exists e, remove_listener l (new_state a : State Msg App) = (Raised e, new_state a) /\
             exn_type e = KeyError) /\
  (exists e, send_data data (new_state a : State Msg App) = (Raised e, new_state a) /\
             exn_type e = AttributeError) /\
  __listen process_data heap buffer_size inputs (new_state a)
    = (Returned LoopExit, new_state a) /\
  __dispatch_listeners heap obj (new_state a)
    = (Returned tt, mkState __init__ a [EvDispatch obj] []).
Proof.
  split; [done|]. split; [done|]. split; [|split; [|split]].
  - unfold remove_listener, bind, get_self. simpl.
    rewrite bool_decide_eq_false_2 by apply not_elem_of_empty. by eexists.
  - by apply socket_call_none.
  - by apply listen_not_alive.
  - unfold __dispatch_listeners, bind, record, get_self. simpl.
    by rewrite elements_empty.
Qed.

(** X21: in every state that a program reaches from a new Connection by
    calls of [connect], [disconnect], [send_data], [send], [add_listener],
    [remove_listener] and runs of [__listen], a Connection that is alive has
    a socket, and this socket is open and connected; so a Connection without
    a socket is not alive. *)
Theorem X21_alive_has_open_socket s :
  reachable_state process_data heap s ->
  (__is_connection_alive (self s) = true ->
   exists sk, __socket (self s) = Some sk /\ sock_closed sk = false /\
              is_Some (sock_peer sk)) /\
  (__socket (self s) = None -> __is_connection_alive (self s) = false).
Proof.
  intros Hreach. pose proof (reachable_wf process_data heap s Hreach) as Hwf.
  split; [exact Hwf|].
  intros Hnone. destruct (__is_connection_alive (self s)) eqn:Halive; [|done].
  destruct (Hwf Halive) as (sk & Hsk & _). congruence.
Qed.

End Coverage.

(** *** [split] and [join] *)

Lemma split_nonempty (data : bytes) :
  exists piece pieces, split data CRLF = piece :: pieces.
Proof. unfold split. destruct (split_from CRLF 0 data) as [h t]. by eexists _, _. Qed.

Lemma split_no_crlf (data : bytes) :
  ~ occurs_in CRLF data -> split data CRLF = [data].
Proof.
  unfold split. induction data as [|x data IH]; intros Hno; [done|].
  cbn [split_from].
  destruct (is_prefix CRLF (x :: data)) eqn:Hpre.
  - apply is_prefix_CRLF in Hpre as [rest Hrest]. destruct Hno. by exists [], rest.
  - assert (~ occurs_in CRLF data) as Hno'.
    { intros (before & after & ->). apply Hno. by exists (x :: before), after. }
    specialize (IH Hno'). destruct (split_from CRLF 0 data) as [h t].
    by injection IH as -> ->.
Qed.

Lemma split_cases (data : bytes) :
  (~ occurs_in CRLF data /\ split data CRLF = [data]) \/
  (exists pre post,
     data = pre ++ CRLF ++ post /\ ~ occurs_in CRLF pre /\
     split data CRLF = pre :: split post CRLF).
Proof.
  destruct (before_crlf_first_segment data) as [[Heq Hno] | (post & Heq & Hno)].
  - left. split; [done|]. by apply split_no_crlf.
  - right. exists (before_crlf data), post.
    split; [done|]. split; [apply before_crlf_no_crlf|].
    rewrite Heq at 1. apply split_segment, before_crlf_no_crlf.
Qed.

Lemma split_join_pieces (n : nat) (data : bytes) :
  (length data <= n)%nat ->
  join CRLF (split data CRLF) = data /\
  Forall (fun piece => ~ occurs_in CRLF piece) (split data CRLF).
Proof.
  revert data. induction n as [|n IH]; intros data Hlen.
  - destruct data; [|simpl in Hlen; lia]. split; [done|].
    repeat constructor. apply not_occurs_in_short. simpl. lia.
  - destruct (split_cases data) as [[Hno ->] | (pre & post & -> & Hno & ->)].
    + split; [done|]. by repeat constructor.
    + destruct (IH post) as [Hjoin Hall].
      { rewrite !length_app in Hlen. simpl in Hlen. lia. }
      split; [|by constructor].
      destruct (split_nonempty post) as (piece & pieces & Hsplit).
      rewrite Hsplit in *.
      change (join CRLF (pre :: piece :: pieces))
        with (pre ++ CRLF ++ join CRLF (piece :: pieces)).
      by rewrite Hjoin.
Qed.

(** X22: [split] on CR-LF loses nothing: joining its pieces with CR-LF gives
    the bytes back; it gives at least one piece; no piece holds a CR-LF; the
    first piece is what the loop dispatches; and on segments that each end
    with CR-LF it gives the segments and an empty last piece. *)
Theorem X22_split_round_trip (data : bytes) :
  join CRLF (split data CRLF) = data /\
  Forall (fun piece => ~ occurs_in CRLF piece) (split data CRLF) /\
  (exists pieces, split data CRLF = before_crlf data :: pieces) /\
  (forall segs,
     Forall (fun seg => ~ occurs_in CRLF seg) segs ->
     split (frames segs) CRLF = segs ++ [[]]).
Proof.
  destruct (split_join_pieces (length data) data (le_n _)) as [Hjoin Hall].
  split; [done|]. split; [done|]. split; [|apply split_frames].
  pose proof (take_1_split data) as Htake.
  destruct (split_nonempty data) as (piece & pieces & Hsplit).
  rewrite Hsplit in *. simpl in Htake. injection Htake as ->. by exists pieces.
Qed.

(** *** The further properties at concrete inputs *)

Lemma example_quiet l :
  l ∈ __listeners (self (connected [1%positive; 4%positive])) ->
  never_raises (example_heap l).
Proof.
  intros Hl. apply elem_of_elements in Hl. vm_compute in Hl.
  apply elem_of_cons in Hl as [-> | Hl]; [apply deaf_never_raises|].
  apply elem_of_cons in Hl as [-> | Hl]; [apply keeper_never_raises|].
  by apply elem_of_nil in Hl.
Qed.

Lemma server_up_ok ip_address port : network_ok server_up ip_address port.
Proof. by repeat split. Qed.

Lemma X1_connect_example :
  exists s',
    connect server_up "irc.example.org" 6667 10 fresh = (Returned true, s') /\
    fst (is_connection_alive s') = Returned true /\
    __socket (self s') = Some example_socket.
Proof.
  destruct (X1_connect_success fresh server_up "irc.example.org" 6667 10)
    as (s' & Hrun & Halive & Hsk & _).
  - reflexivity.
  - apply server_up_ok.
  - unfold timeout_max. lia.
  - exists s'. split; [exact Hrun|]. split; [exact Halive|exact Hsk].
Defined.

Lemma X2_thread_example :
  exists s',
    connect server_up_no_thread "irc.example.org" 6667 10 fresh
      = (Raised cannot_start, s') /\
    __is_connection_alive (self s') = true /\
    __listen_thread (self s') = Some (mkThread false).
Proof.
  destruct (proj2 (proj2 (X2_connect_other_exception fresh server_up_no_thread
                            "irc.example.org" 6667 10 cannot_start
                            eq_refl eq_refl ltac:(lia))))
    as (s' & Hrun & Halive & Hthread & _).
  - reflexivity.
  - reflexivity.
  - reflexivity.
  - exists s'. split; [exact Hrun|]. split; [exact Halive|exact Hthread].
Defined.

Lemma X3_retry_example :
  exists s',
    connect server_up "irc.example.org" 6667 10
      (snd (connect server_down "irc.example.org" 6667 10 fresh)) = (Returned true, s') /\
    __is_connection_alive (self s') = true.
Proof.
  destruct (X3_connect_again_after_failure fresh server_down "irc.example.org" 6667 10
              refused server_up "irc.example.org" 6667 10)
    as (s' & Hrun & Halive & _).
  - reflexivity.
  - reflexivity.
  - right. split; [reflexivity|]. split; [lia|reflexivity].
  - apply server_up_ok.
  - unfold timeout_max. lia.
  - exists s'. split; [exact Hrun|exact Halive].
Defined.

Lemma X4_reconnect_example :
  exists s',
    connect server_up "irc.example.org" 6697 30 (snd (disconnect (connected [1%positive])))
      = (Returned true, s') /\
    __socket (self s') =
      Some (mkSocket (Some 30) (Some ("irc.example.org", 6697)) false []) /\
    __listeners (self s') = __listeners (self (connected [1%positive])).
Proof.
  destruct (X4_reconnect_after_disconnect (connected [1%positive]) server_up
              "irc.example.org" 6697 30)
    as (s' & _ & Hrun & _ & Hsk & Hls & _).
  - apply wf_connected.
  - reflexivity.
  - apply server_up_ok.
  - unfold timeout_max. lia.
  - exists s'. split; [exact Hrun|]. split; [exact Hsk|exact Hls].
Defined.

Lemma X5_after_disconnect_example :
  disconnect (snd (disconnect (connected [1%positive])))
    = (Returned false, snd (disconnect (connected [1%positive]))) /\
  __listen _process_data example_heap 4096 [Returned (b "A" ++ CRLF)]
    (snd (disconnect (connected [1%positive])))
    = (Returned LoopExit, snd (disconnect (connected [1%positive]))).
Proof.
  destruct (X5_after_disconnect _process_data example_heap (connected [1%positive]) 4096
              [Returned (b "A" ++ CRLF)])
    as (_ & Htwice & Hloop).
  - apply wf_connected.
  - reflexivity.
  - split; [exact Htwice|exact Hloop].
Defined.

Lemma X6_no_socket_example :
  exists e, send_data (b "PING") fresh = (Raised e, fresh) /\ exn_type e = AttributeError.
Proof.
  apply (proj1 (X6_send_without_socket fresh eq_refl)).
Defined.

Lemma X7_closed_socket_example :
  send_data (b "PING") (snd (disconnect (connected [])))
    = (Raised bad_file_descriptor, snd (disconnect (connected []))).
Proof.
  apply (proj1 (X7_send_after_disconnect (connected []) (wf_connected []) eq_refl)).
Defined.



Lemma X10_surrogate_example :
  exists e,
    send (u "a" ++ 0xD800%N :: u "b") true (connected []) = (Raised e, connected []) /\
    exn_type e = UnicodeEncodeError.
Proof.
  apply (X10_send_surrogate (u "a") (u "b") 0xD800%N true (connected [])).
  unfold is_surrogate. lia.
Defined.

Lemma X11_add_again_example :
  snd (add_listener 1%positive (connected [1%positive])) = connected [1%positive].
Proof.
  apply (proj1 (proj2 (proj2 (X11_add_listener_set 1%positive 1%positive
                                (connected [1%positive]))))).
  by apply (bool_decide_unpack _).
Defined.

Lemma X12_round_trip_example :
  remove_listener 7%positive (snd (add_listener 7%positive (connected [1%positive])))
    = (Returned tt, connected [1%positive]).
Proof.
  apply (proj1 (X12_add_remove_round_trip 7%positive (connected [1%positive]))).
  by apply (bool_decide_unpack _).
Defined.

Lemma X14_removed_example :
  exists s1 evs,
    remove_listener 1%positive (connected [1%positive; 4%positive]) = (Returned tt, s1) /\
    trace (snd (__listen _process_data example_heap 4096
                  [Returned (b "A" ++ CRLF); Returned (b "B" ++ CRLF)] s1))
      = trace s1 ++ evs /\
    count (is_accept 1%positive) evs = 0%nat /\
    count (is_receive 1%positive) evs = 0%nat.
Proof.
  destruct (X14_removed_listener_not_called _process_data example_heap 4096
              [Returned (b "A" ++ CRLF); Returned (b "B" ++ CRLF)]
              (connected [1%positive; 4%positive]) 1%positive)
    as (s1 & Hrun & _ & _ & evs & Htr & Hacc & Hrecv).
  - by apply (bool_decide_unpack _).
  - exists s1, evs. split; [exact Hrun|]. split; [exact Htr|]. split; [exact Hacc|exact Hrecv].
Defined.

Lemma X15_whole_run_example :
  exists s',
    __listen _process_data example_heap 4096
      [Returned (b "A" ++ CRLF ++ b "B" ++ CRLF); Returned (b "C"); Returned [];
       Returned (b "D" ++ CRLF)]
      (connected [1%positive; 4%positive]) = (Returned LoopExit, s') /\
    dispatched (trace s') = [b "A"; b "C"] /\
    __is_connection_alive (self s') = false.
Proof.
  destruct (X15_listen_whole_run _process_data example_heap 4096
              [Returned (b "A" ++ CRLF ++ b "B" ++ CRLF); Returned (b "C"); Returned [];
               Returned (b "D" ++ CRLF)]
              (connected [1%positive; 4%positive]))
    as (s' & Hrun & Hdisp & Halive & _).
  - apply wf_connected.
  - reflexivity.
  - apply example_quiet.
  - exists s'. split; [exact Hrun|]. split; [exact Hdisp|exact Halive].
Defined.

Lemma X16_timeout_example :
  __listen _process_data example_heap 4096 [Raised timed_out; Returned (b "A" ++ CRLF)]
    (connected [1%positive]) = (Raised timed_out, connected [1%positive]).
Proof.
  apply (proj1 (X16_recv_exception_ends_loop _process_data example_heap 4096 timed_out
                  [Returned (b "A" ++ CRLF)] (connected [1%positive])
                  (wf_connected _) eq_refl)).
Defined.

Lemma X19_receives_example :
  received_by 1%positive
    (trace (snd (__listen _process_data example_heap 4096
                   [Returned (b "A" ++ CRLF ++ b "B" ++ CRLF); Returned (b "C"); Returned []]
                   (connected [1%positive; 4%positive]))))
    = [b "A"; b "C"] /\
  received_by 4%positive
    (trace (snd (__listen _process_data example_heap 4096
                   [Returned (b "A" ++ CRLF ++ b "B" ++ CRLF); Returned (b "C"); Returned []]
                   (connected [1%positive; 4%positive]))))
    = [].
Proof.
  split.
  - apply (proj1 (X19_listener_receives _process_data example_heap 4096
                    [Returned (b "A" ++ CRLF ++ b "B" ++ CRLF); Returned (b "C"); Returned []]
                    (connected [1%positive; 4%positive]) 1%positive true
                    (wf_connected _) eq_refl example_quiet (fun _ _ => eq_refl))).
    + reflexivity.
    + by apply (bool_decide_unpack _).
  - apply (proj2 (X19_listener_receives _process_data example_heap 4096
                    [Returned (b "A" ++ CRLF ++ b "B" ++ CRLF); Returned (b "C"); Returned []]
                    (connected [1%positive; 4%positive]) 4%positive false
                    (wf_connected _) eq_refl example_quiet (fun _ _ => eq_refl))).
    by left.
Defined.

Lemma X21_invariant_example :
  exists sk,
    __socket (self (snd (add_listener 1%positive
                           (snd (connect server_up "irc.example.org" 6667 10 fresh)))))
      = Some sk /\
    sock_closed sk = false.
Proof.
  destruct (proj1 (X21_alive_has_open_socket _process_data example_heap
                     (snd (add_listener 1%positive
                             (snd (connect server_up "irc.example.org" 6667 10 fresh))))
                     (reach_add_listener _ _ _ _
                        (reach_connect _ _ _ _ _ _ _ (reach_new _ _ [])))))
    as (sk & Hsk & Hopen & _).
  - reflexivity.
  - exists sk. split; [exact Hsk|exact Hopen].
Defined.

Lemma X22_split_example :
  join CRLF (split (b "A" ++ CRLF ++ b "B") CRLF) = b "A" ++ CRLF ++ b "B" /\
  split (frames [b "A"; b "B"]) CRLF = [b "A"; b "B"; []].
Proof.
  split.
  - apply (proj1 (X22_split_round_trip (b "A" ++ CRLF ++ b "B"))).
  - apply (proj2 (proj2 (proj2 (X22_split_round_trip []))) [b "A"; b "B"]).
    repeat constructor; apply not_occurs_in_short; simpl; lia.
Defined.
